(** * countryfetch: the [Countries] class

    A shallow embedding of [src/countries.ts] (module [Countries]) and of a
    sibling text of the same class that the repository also carries (module
    [CountriesAlt]), together with the properties of the cache-freshness
    policy, the synchronisation and the look-ups.

    JavaScript values are modelled as follows.
    - A string is a [string], the bytes of its UTF-8 text.  [toLowerCase]
      is the ASCII part of [String.prototype.toLowerCase] (bytes outside
      [A-Z] are unchanged); it serves where the strings at hand are ASCII.
      The statements about every name and every query are made of
      [findBy] and [findByCapitalBy], which take the lower-casing as a
      parameter.
    - A number that the code computes with is a double, kept as the
      rational it is; a product is rounded as the hardware rounds it.
    - An optional property is an [option]; [None] is [undefined].
    - A method that may throw returns an [Outcome]; a method that has
      effects is a function in the monad [M], which threads the object, the
      cache and the sequence of effects, and keeps the changes made before a
      throw.
    - The collaborators that are not part of this class (clock, network,
      image converter) are read from a [World]. *)

From Stdlib Require Import ZArith QArith Qround Qpower String Ascii List Bool Lia Lqa.
From Stdlib Require Import DecimalString DecimalPos DecimalZ.
From stdpp Require Import base option list strings.
Import ListNotations.

Open Scope string_scope.
Open Scope list_scope.
Open Scope Z_scope.

(* ------------------------------------------------------------------ *)
(** ** Strings *)

Definition lowerChar (c : ascii) : ascii :=
  let n := nat_of_ascii c in
  if ((65 <=? n) && (n <=? 90))%nat then ascii_of_nat (n + 32) else c.

(** [s.toLowerCase()] on ASCII text: the letters [A] to [Z] are
    lower-cased, every other byte is kept. *)
Fixpoint toLowerCase (s : string) : string :=
  match s with
  | EmptyString => EmptyString
  | String c s' => String (lowerChar c) (toLowerCase s')
  end.

(** [s.startsWith(p)] *)
Fixpoint startsWith (p s : string) : bool :=
  match p, s with
  | EmptyString, _ => true
  | String _ _, EmptyString => false
  | String a p', String b s' => if Ascii.eqb a b then startsWith p' s' else false
  end.

(** [s.includes(sub)] *)
Fixpoint includes (s sub : string) : bool :=
  startsWith sub s ||
  match s with
  | EmptyString => false
  | String _ s' => includes s' sub
  end.

Fixpoint dropString (n : nat) (s : string) : string :=
  match n, s with
  | O, _ => s
  | S _, EmptyString => EmptyString
  | S n', String _ s' => dropString n' s'
  end.

(** [s.replace(pat, rep)] with a string pattern: the first occurrence only. *)
Fixpoint replace (pat rep s : string) : string :=
  if startsWith pat s then rep +:+ dropString (String.length pat) s
  else match s with
       | EmptyString => EmptyString
       | String c s' => String c (replace pat rep s')
       end.

(** [xs.join(sep)] on an array of strings. *)
Definition join (sep : string) (xs : list string) : string := String.concat sep xs.

(** JavaScript truthiness of a possibly undefined string. *)
Definition truthy (s : option string) : bool :=
  match s with
  | None => false
  | Some s => negb (String.eqb s "")
  end.

(** [a || b] on possibly undefined strings. *)
Definition orElse (a b : option string) : option string :=
  if truthy a then a else b.

(** A string inside a template literal. *)
Definition interpolate (s : option string) : string :=
  match s with
  | None => "undefined"
  | Some s => s
  end.

(* ------------------------------------------------------------------ *)
(** ** Numbers read from, and written to, text *)

Inductive JsNumber : Type :=
| NaN
| Num (z : Z).

(** [Number(text)] on the texts the cache holds: an optionally signed run of
    decimal digits; any other text is [NaN] here, the empty text included
    (JavaScript reads it as 0, a number [shouldSync] never uses, the empty
    text being falsy). *)
Definition Number (text : string) : JsNumber :=
  match NilZero.int_of_string text with
  | Some i => Num (Z.of_int i)
  | None => NaN
  end.

(** [JSON.stringify(n)] for an integer [n]. *)
Definition stringify (n : Z) : string := NilZero.string_of_int (Z.to_int n).

(** [now - Number(text) > bound]; a comparison with [NaN] is false. *)
Definition olderThan (now : Z) (n : JsNumber) (bound : Z) : bool :=
  match n with
  | NaN => false
  | Num t => bound <? now - t
  end.

(* ------------------------------------------------------------------ *)
(** ** Double-precision arithmetic

    A JavaScript number is a double.  The finite doubles are rationals, so
    a double is kept as a [Q]; the product of two doubles is the exact
    product rounded to the nearest double, ties to the even significand.
    The rounding below covers the normal and the subnormal range; it does
    not overflow to infinity, which needs a magnitude of [2^1024]. *)

Definition pow2 (e : Z) : Q := (2 ^ e)%Q.

(** [floor (log2 x)] for a positive [x]. *)
Definition exponentOf (x : Q) : Z :=
  let e := Z.log2 (Qnum x) - Z.log2 (Zpos (Qden x)) in
  if Qle_bool (pow2 e) x then e else e - 1.

(** The integer nearest to [y], the even one of two that are equally near. *)
Definition roundHalfEven (y : Q) : Z :=
  let f := Qfloor y in
  match Qcompare (y - inject_Z f) (1 # 2) with
  | Lt => f
  | Gt => f + 1
  | Eq => if Z.even f then f else f + 1
  end.

(** The double nearest to a positive [x]: a multiple of the unit in the
    last place of [x], which is [2^(e - 52)] for [2^e <= x < 2^(e + 1)] and
    [2^(-1074)] below the normal range. *)
Definition nearestDouble (x : Q) : Q :=
  let e := Z.max (exponentOf x) (-1022) in
  let ulp := pow2 (e - 52) in
  (inject_Z (roundHalfEven (x / ulp)) * ulp)%Q.

(** The double that an exact result [x] is rounded to. *)
Definition toDouble (x : Q) : Q :=
  match Qcompare x 0 with
  | Eq => 0%Q
  | Gt => nearestDouble x
  | Lt => (- nearestDouble (- x))%Q
  end.

(** [a * b] on doubles. *)
Definition multiply (a b : Q) : Q := toDouble (a * b).

(* ------------------------------------------------------------------ *)
(** ** models/country.model.ts, models/flag-ascii.model.ts *)

Record CountryName : Type := { common : string }.

Record Currency : Type := { currencyName : option string; symbol : option string }.

Record Flags : Type := { png : option string; svg : option string }.

Record CapitalInfo : Type := { capitalLatlng : option (list Q) }.

(** Modelled from the spec: the [Country] interface of
    [models/country.model.ts], a file the sources do not contain.  The field
    names are the ones [countries.ts] reads; [name] is required, every
    other field may be absent from a record (spec, data model and design
    notes); the two mappings are kept in the order [for ... in] visits
    them. *)
Record Country : Type := {
  name : CountryName;
  capital : option (list string);
  region : option string;
  subregion : option string;
  population : option Z;
  currencies : option (list (string * Currency));
  languages : option (list (string * string));
  timezones : option (list string);
  latlng : option (list Q);
  tld : option (list string);
  flag : option string;
  flags : option Flags;
  capitalInfo : option CapitalInfo;
}.

Record FlagAscii : Type := { countryName : string; flagString : list string }.

(* ------------------------------------------------------------------ *)
(** ** Outcomes *)

Inductive Error : Type :=
| TypeError                       (* a property read on [undefined] *)
| SyntaxError                     (* [response.json()] on a malformed body *)
| NetworkError                    (* [fetch] rejected *)
| ImageError                      (* the image converter rejected *)
| ErrorObject (message : string)  (* [throw new Error(message)] *)
| Thrown (message : string).      (* [throw message] *)

Inductive Outcome (A : Type) : Type :=
| Return (a : A)
| Throw (e : Error).
Arguments Return {A} a.
Arguments Throw {A} e.

(** [xs.find(p)] for a callback that may throw. *)
Fixpoint findWith {A : Type} (p : A -> Outcome bool) (xs : list A) : Outcome (option A) :=
  match xs with
  | [] => Return None
  | x :: xs' =>
      match p x with
      | Throw e => Throw e
      | Return true => Return (Some x)
      | Return false => findWith p xs'
      end
  end.

(** [c] is the first element of [xs], in order, that [p] accepts. *)
Definition firstMatch {A : Type} (p : A -> bool) (xs : list A) (c : A) : Prop :=
  exists before after,
    xs = before ++ c :: after /\ p c = true /\ Forall (fun x => p x = false) before.

(* ------------------------------------------------------------------ *)
(** ** environment/environment.ts *)

Module environment.
Definition baseUrl : string := "https://restcountries.com/v3.1/".
Definition syncInterval : Z := 7.
Definition flagWidth : nat := 40.
Definition queries : string :=
  "all?fields=name,capital,currencies,population,flags,languages,region,subregion,timezones,latlng".
End environment.

(* ------------------------------------------------------------------ *)
(** ** The collaborators *)

(** What [logger.logCountry] receives; a property may be [undefined]. *)
Record PrintableRecord : Type := {
  pr_country : option string;
  pr_latlng : option string;
  pr_capital : option string;
  pr_flag : option string;
  pr_population : option string;
  pr_region : option string;
  pr_subregion : option string;
  pr_capitalLatLng : option string;
  pr_timezones : option string;
  pr_tld : option string;
  pr_currencies : option string;
  pr_languages : option string;
}.

(** Modelled from the spec: the cache store of [util/cache.ts], a file the
    sources do not contain.  It keeps the three entries of the cache
    directory, [countries.json], [flags.json] and [last-synced.txt]; an
    entry is either present and well formed or absent, and a read of an
    absent entry gives [undefined]. *)
Record Cache : Type := {
  countriesJson : option (list Country);
  flagsJson : option (list FlagAscii);
  lastSyncedTxt : option string;
}.

Definition emptyCache : Cache :=
  {| countriesJson := None; flagsJson := None; lastSyncedTxt := None |}.

(** The response of [fetch]: [response.ok], [response.text()] and
    [response.json()] cast to [Country[]]. *)
Record Response : Type := {
  ok : bool;
  text : string;
  json : Outcome (list Country);
}.

(** Everything the class reads from outside itself. *)
Record World : Type := {
  nowAtCheck : Z;                                   (* [Date.now()] in [shouldSync] *)
  nowAtSave : Z;                                    (* [Date.now()] when the timestamp is written *)
  fetch : string -> Outcome Response;               (* [fetch(url)] *)
  getImageStrings : string -> Outcome (list string);(* the image converter *)
  mathRandom : Q;                                   (* [Math.random()] *)
  cacheDir : string;                                (* [environment.cacheDir] *)
  numberToString : Q -> string;                     (* a number inside [join] *)
  toLocaleString : Z -> string;                     (* [n.toLocaleString()] *)
  flagUrls : string -> option string;               (* the table imported from [./flags.json] *)
}.

(** The observable effects, in the order they happen. *)
Inductive Event : Type :=
| LoggerAlert (title body : string)
| LoggerSuccess (message : string)
| LoggerLog (message : option string)
| LoggerError (message : string)
| LoggerLogCountry (record : PrintableRecord)
| LoggerProgress (index total : nat) (title : option string) (description : string)
| LoggerCapitalOf (capital country : string)
| FetchUrl (url : string)
| CacheSaveJson (key : string)
| CacheSaveTxt (key : string) (content : string)
| ImageRequest (url : string).

(** The object: its three fields, the cache it owns, and the effects so far. *)
Record State : Type := {
  this_list : list Country;
  this_names : list string;
  this_flags : list FlagAscii;
  cache : Cache;
  trace : list Event;
}.

Definition initial (c : Cache) : State :=
  {| this_list := []; this_names := []; this_flags := []; cache := c; trace := [] |}.

(* ------------------------------------------------------------------ *)
(** ** The monad of methods *)

Definition M (A : Type) : Type := State -> Outcome A * State.

Definition ret {A : Type} (a : A) : M A := fun s => (Return a, s).

Definition throw {A : Type} (e : Error) : M A := fun s => (Throw e, s).

Definition bind {A B : Type} (m : M A) (k : A -> M B) : M B :=
  fun s =>
    match m s with
    | (Return a, s') => k a s'
    | (Throw e, s') => (Throw e, s')
    end.

Definition get : M State := fun s => (Return s, s).

Definition modify (f : State -> State) : M unit := fun s => (Return tt, f s).

Definition lift {A : Type} (o : Outcome A) : M A := fun s => (o, s).

Notation "x <- m ;; k" := (bind m (fun x => k))
  (at level 100, m at next level, right associativity).
Notation "m ;; k" := (bind m (fun _ => k))
  (at level 100, right associativity).

Definition emit (e : Event) : M unit :=
  modify (fun s => {| this_list := this_list s; this_names := this_names s;
                      this_flags := this_flags s; cache := cache s;
                      trace := trace s ++ [e] |}).

Definition setList (l : list Country) : M unit :=
  modify (fun s => {| this_list := l; this_names := this_names s;
                      this_flags := this_flags s; cache := cache s;
                      trace := trace s |}).

Definition setNames (n : list string) : M unit :=
  modify (fun s => {| this_list := this_list s; this_names := n;
                      this_flags := this_flags s; cache := cache s;
                      trace := trace s |}).

Definition setFlags (f : list FlagAscii) : M unit :=
  modify (fun s => {| this_list := this_list s; this_names := this_names s;
                      this_flags := f; cache := cache s;
                      trace := trace s |}).

Definition setCache (f : Cache -> Cache) : M unit :=
  modify (fun s => {| this_list := this_list s; this_names := this_names s;
                      this_flags := this_flags s; cache := f (cache s);
                      trace := trace s |}).

(** [cache.saveJson("countries", v)] *)
Definition saveJsonCountries (v : list Country) : M unit :=
  setCache (fun c => {| countriesJson := Some v; flagsJson := flagsJson c;
                        lastSyncedTxt := lastSyncedTxt c |}) ;;
  emit (CacheSaveJson "countries").

(** [cache.saveJson("flags", v)] *)
Definition saveJsonFlags (v : list FlagAscii) : M unit :=
  setCache (fun c => {| countriesJson := countriesJson c; flagsJson := Some v;
                        lastSyncedTxt := lastSyncedTxt c |}) ;;
  emit (CacheSaveJson "flags").

(** [cache.saveTxt("last-synced", t)] *)
Definition saveTxtLastSynced (t : string) : M unit :=
  setCache (fun c => {| countriesJson := countriesJson c; flagsJson := flagsJson c;
                        lastSyncedTxt := Some t |}) ;;
  emit (CacheSaveTxt "last-synced" t).

(** [cache.exists("countries", ".json")] *)
Definition existsCountriesJson (c : Cache) : bool :=
  match countriesJson c with Some _ => true | None => false end.

(** [fetch(url)] *)
Definition doFetch (w : World) (url : string) : M Response :=
  emit (FetchUrl url) ;; lift (fetch w url).

(** [imageConverter.getImageStrings(url)] *)
Definition doGetImageStrings (w : World) (url : string) : M (list string) :=
  emit (ImageRequest url) ;; lift (getImageStrings w url).

Definition newline : string := String (ascii_of_nat 10) EmptyString.

(** [xs[i]] *)
Definition at_index {A : Type} (xs : list A) (i : Z) : option A :=
  if i <? 0 then None else nth_error xs (Z.to_nat i).

(** [Math.floor(x)] *)
Definition floor (x : Q) : Z := Qfloor x.

(** [Number(lastSynced)] where [lastSynced] may be [undefined]. *)
Definition NumberOf (t : option string) : JsNumber :=
  match t with
  | None => NaN
  | Some t => Number t
  end.

(** [xs.join(sep)] on an array of numbers. *)
Definition joinNumbers (w : World) (sep : string) (xs : list Q) : string :=
  join sep (map (numberToString w) xs).

(** Reading a property of a possibly undefined object. *)
Definition property {A : Type} (o : option A) : Outcome A :=
  match o with
  | Some a => Return a
  | None => Throw TypeError
  end.

(* ------------------------------------------------------------------ *)
(** ** src/countries.ts *)

Module Countries.

Definition query : string := environment.queries.

Definition shouldSync (w : World) (s : State) : bool :=
  let lastSynced := lastSyncedTxt (cache s) in
  let cacheExists := existsCountriesJson (cache s) in
  let week := environment.syncInterval * 23 * 60 * 60 * 1000 in
  let updateDue := olderThan (nowAtCheck w) (NumberOf lastSynced) week in
  negb cacheExists || negb (truthy lastSynced) || updateDue.

Fixpoint generateFlagImgsFrom (w : World) (total : nat) (logTitle : option string)
    (countries : list Country) (data : list FlagAscii) (index : nat)
    : M (list FlagAscii) :=
  match countries with
  | [] => ret data
  | country :: rest =>
      flagsOf <- lift (property (flags country)) ;;
      pngUrl <- lift (property (png flagsOf)) ;;
      let flagUrl := replace ".png" ".jpg" pngUrl in
      flagString <- doGetImageStrings w flagUrl ;;
      let data := data ++ [{| countryName := common (name country);
                              flagString := flagString |}] in
      let index := S index in
      emit (LoggerProgress index total logTitle
              ("Generating a flag for " +:+ common (name country))) ;;
      generateFlagImgsFrom w total logTitle rest data index
  end.

Definition generateFlagImgs (w : World) (countries : list Country)
    (logTitle : option string) : M (list FlagAscii) :=
  generateFlagImgsFrom w (length countries) logTitle countries [] O.

Definition sync (w : World) (force flagAscii : bool) : M (list Country) :=
  s <- get ;;
  (if shouldSync w s || force then
     emit (LoggerAlert "Synchronizing countries database..."
             (if force then ""
              else newline +:+ "This will only happen every "
                     +:+ stringify environment.syncInterval +:+ " days")) ;;
     response <- doFetch w (environment.baseUrl +:+ query) ;;
     countries <- lift (json response) ;;
     setList countries ;;
     saveJsonCountries countries ;;
     saveTxtLastSynced (stringify (nowAtSave w)) ;;
     (if flagAscii then
        let logTitle :=
          "Generating ASCII art for each country flag. This may take a minute..." in
        flagStrings <- generateFlagImgs w countries (Some logTitle) ;;
        setFlags flagStrings ;;
        saveJsonFlags flagStrings
      else ret tt) ;;
     emit (LoggerSuccess ("Synced successfully: cache saved at " +:+ cacheDir w))
   else
     (* [exists] held, so the entry is there; were it not, [this.list.map]
        below would be a read on [undefined] *)
     countries <- lift (property (countriesJson (cache s))) ;;
     setList countries ;;
     setFlags (default [] (flagsJson (cache s)))) ;;
  s <- get ;;
  setNames (map (fun c => common (name c)) (this_list s)) ;;
  ret (this_list s).

Definition find (query : string) : M Country :=
  s <- get ;;
  let query := toLowerCase query in
  let country :=
    List.find (fun c => String.eqb (toLowerCase (common (name c))) query)
              (this_list s) in
  let country :=
    match country with
    | Some c => Some c
    | None =>
        List.find (fun c => includes (toLowerCase (common (name c))) query)
                  (this_list s)
    end in
  match country with
  | None => throw (Thrown ("Cannot find country named " +:+ query))
  | Some c => ret c
  end.

(** [find], with the lower-casing of strings as a parameter: [lower]
    stands for [String.prototype.toLowerCase], and [find] above is this
    function at the ASCII lower-casing. *)
Definition findBy (lower : string -> string) (query : string) : M Country :=
  s <- get ;;
  let query := lower query in
  let country :=
    List.find (fun c => String.eqb (lower (common (name c))) query)
              (this_list s) in
  let country :=
    match country with
    | Some c => Some c
    | None =>
        List.find (fun c => includes (lower (common (name c))) query)
                  (this_list s)
    end in
  match country with
  | None => throw (Thrown ("Cannot find country named " +:+ query))
  | Some c => ret c
  end.

Definition filterByRegion (r : string) : M (list Country) :=
  s <- get ;;
  ret (List.filter
         (fun country => match region country with
                         | Some r' => String.eqb r' r
                         | None => false
                         end)
         (this_list s)).

Definition extractCurrencies (cs : option (list (string * Currency))) : string :=
  join " | "
    (map (fun '(currencyAbbr, currency) =>
            interpolate (currencyName currency) +:+ " ["
              +:+ interpolate (symbol currency) +:+ "](" +:+ currencyAbbr +:+ ")")
         (default [] cs)).

Definition extractLanguages (ls : option (list (string * string))) : string :=
  join " | " (map snd (default [] ls)).

Definition print (w : World) (query : string) : M unit :=
  country <- find query ;;
  s <- get ;;
  let currencies := extractCurrencies (currencies country) in
  let languages := extractLanguages (languages country) in
  let flagAscii :=
    List.find (fun i => String.eqb (countryName i) (common (name country)))
              (this_flags s) in
  match flagAscii with
  | Some f => emit (LoggerLog (head (flagString f)))
  | None => ret tt
  end ;;
  let tld := match tld country with
             | Some t => join " | " t
             | None => "N/A"
             end in
  latlng <- lift (property (latlng country)) ;;
  capital <- lift (property (capital country)) ;;
  population <- lift (property (population country)) ;;
  let capitalLatLng :=
    match capitalInfo country with
    | Some info =>
        match capitalLatlng info with
        | Some l => joinNumbers w "/" l
        | None => "N/A"
        end
    | None => "N/A"
    end in
  timezones <- lift (property (timezones country)) ;;
  emit (LoggerLogCountry
          {| pr_country := Some (common (name country));
             pr_latlng := Some (joinNumbers w "/" latlng);
             pr_capital := head capital;
             pr_flag := flag country;
             pr_population := Some (toLocaleString w population);
             pr_region := region country;
             pr_subregion := subregion country;
             pr_capitalLatLng := Some capitalLatLng;
             pr_timezones := Some (join " | " timezones);
             pr_tld := Some tld;
             pr_currencies := Some currencies;
             pr_languages := Some languages |}) ;;
  let flagUrl :=
    orElse (flagUrls w (toLowerCase (common (name country))))
           (Some "https://flagcdn.com/unknown.svg") in
  emit (LoggerLog (Some ("Flag: " +:+ interpolate flagUrl))).

Definition random (w : World) : M (option string) :=
  s <- get ;;
  let randomNum :=
    floor (multiply (mathRandom w) (inject_Z (Z.of_nat (length (this_names s))))) in
  ret (at_index (this_names s) randomNum).

Definition findByCapital (capitalName : string) : M Country :=
  s <- get ;;
  country <- lift (findWith
                     (fun c =>
                        match property (capital c) with
                        | Throw e => Throw e
                        | Return capitals =>
                            let capitalsLowercase := map toLowerCase capitals in
                            Return (existsb (String.eqb capitalName) capitalsLowercase)
                        end)
                     (this_list s)) ;;
  match country with
  | None => throw (Thrown ("Could not find the country of capital: " +:+ capitalName))
  | Some c => ret c
  end.

(** [findByCapital], with the lower-casing of strings as a parameter. *)
Definition findByCapitalBy (lower : string -> string) (capitalName : string)
    : M Country :=
  s <- get ;;
  country <- lift (findWith
                     (fun c =>
                        match property (capital c) with
                        | Throw e => Throw e
                        | Return capitals =>
                            let capitalsLowercase := map lower capitals in
                            Return (existsb (String.eqb capitalName) capitalsLowercase)
                        end)
                     (this_list s)) ;;
  match country with
  | None => throw (Thrown ("Could not find the country of capital: " +:+ capitalName))
  | Some c => ret c
  end.

Definition capitalOf (capitalName : string) : M unit :=
  if String.eqb capitalName "" then
    emit (LoggerError "Must provide a capital name.")
  else
    country <- findByCapital capitalName ;;
    emit (LoggerCapitalOf capitalName (common (name country))).

End Countries.

(** [s.repeat(n)] *)
Fixpoint repeatString (s : string) (n : nat) : string :=
  match n with
  | O => EmptyString
  | S n' => s +:+ repeatString s n'
  end.

(** [o?.f]: [undefined] when [o] is. *)
Definition chain {A B : Type} (o : option A) (f : A -> option B) : option B :=
  match o with
  | Some a => f a
  | None => None
  end.

(** [a ?? b] *)
Definition coalesce (a : option string) (b : string) : string :=
  match a with
  | Some x => x
  | None => b
  end.

(* ------------------------------------------------------------------ *)
(** ** The sibling texts of the class

    Beside [src/countries.ts] the repository carries two further texts of
    the class.  The first is embedded here: it checks [response.ok], guards
    every optional field in [print], skips countries without a flag
    reference, and has no look-up by capital; [find], [filterByRegion],
    [random] and [extractLanguages] are the same as in [src/countries.ts].
    The second text has the [sync] and the field guards of the first and
    the [shouldSync], [findByCapital] and [generateFlagImgs] of
    [src/countries.ts]; it adds no behaviour of its own. *)

Module CountriesAlt.

Definition query : string := environment.queries.

Definition shouldSync (w : World) (s : State) : bool :=
  let lastSynced := lastSyncedTxt (cache s) in
  let cacheExists := existsCountriesJson (cache s) in
  let week := environment.syncInterval * 7 * 24 * 60 * 60 * 1000 in
  let updateDue := olderThan (nowAtCheck w) (NumberOf lastSynced) week in
  negb cacheExists || negb (truthy lastSynced) || updateDue.

Fixpoint generateFlagImgsFrom (w : World) (total : nat) (logTitle : option string)
    (countries : list Country) (data : list FlagAscii) (index : nat)
    : M (list FlagAscii) :=
  match countries with
  | [] => ret data
  | country :: rest =>
      let flagUrl :=
        coalesce
          (orElse (orElse (chain (flags country) png) (chain (flags country) svg))
                  (Some "N/A"))
          "N/A" in
      if String.eqb flagUrl "N/A" then
        generateFlagImgsFrom w total logTitle rest data index
      else
        flagString <- doGetImageStrings w flagUrl ;;
        let data := data ++ [{| countryName := common (name country);
                                flagString := flagString |}] in
        let index := S index in
        emit (LoggerProgress index total logTitle
                ("Generating a flag for " +:+ common (name country))) ;;
        generateFlagImgsFrom w total logTitle rest data index
  end.

Definition generateFlagImgs (w : World) (countries : list Country)
    (logTitle : option string) : M (list FlagAscii) :=
  generateFlagImgsFrom w (length countries) logTitle countries [] O.

Definition sync (w : World) (force flagAscii : bool) : M (list Country) :=
  s <- get ;;
  (if shouldSync w s || force then
     emit (LoggerAlert "Synchronizing countries database..."
             (if force then ""
              else newline +:+ "This will only happen every "
                     +:+ stringify environment.syncInterval +:+ " days")) ;;
     response <- doFetch w (environment.baseUrl +:+ query) ;;
     (if negb (ok response) then
        throw (ErrorObject ("API Error: " +:+ text response))
      else ret tt) ;;
     countries <- lift (json response) ;;
     setList countries ;;
     saveJsonCountries countries ;;
     saveTxtLastSynced (stringify (nowAtSave w)) ;;
     (if flagAscii then
        let logTitle :=
          "Generating ASCII art for each country flag. This may take a minute..." in
        flagStrings <- generateFlagImgs w countries (Some logTitle) ;;
        setFlags flagStrings ;;
        saveJsonFlags flagStrings
      else ret tt) ;;
     emit (LoggerSuccess ("Synced successfully: cache saved at " +:+ cacheDir w))
   else
     countries <- lift (property (countriesJson (cache s))) ;;
     setList countries ;;
     setFlags (default [] (flagsJson (cache s)))) ;;
  s <- get ;;
  setNames (map (fun c => common (name c)) (this_list s)) ;;
  ret (this_list s).

Definition find : string -> M Country := Countries.find.

Definition filterByRegion : string -> M (list Country) := Countries.filterByRegion.

Definition extractCurrencies (cs : option (list (string * Currency))) : string :=
  join " | "
    (map (fun '(currencyAbbr, currency) =>
            interpolate (currencyName currency) +:+ " (" +:+ currencyAbbr +:+ ")")
         (default [] cs)).

Definition extractLanguages : option (list (string * string)) -> string :=
  Countries.extractLanguages.

Definition print (w : World) (query : string) : M unit :=
  country <- find query ;;
  s <- get ;;
  let currencies := extractCurrencies (currencies country) in
  let languages := extractLanguages (languages country) in
  let FlagAscii :=
    List.find (fun i => String.eqb (countryName i) (common (name country)))
              (this_flags s) in
  let separatorLength := environment.flagWidth in
  let separator := repeatString "-" separatorLength in
  emit (LoggerLog (Some (newline +:+ separator))) ;;
  match FlagAscii with
  | Some f => emit (LoggerLog (Some (newline +:+ join newline (flagString f))))
  | None =>
      emit (LoggerError ("Flag not found for " +:+ common (name country))) ;;
      emit (LoggerLog (Some "Flag: Not Available"))
  end ;;
  emit (LoggerLog (Some separator)) ;;
  emit (LoggerLogCountry
          {| pr_country := Some (common (name country));
             pr_latlng :=
               Some (coalesce (chain (latlng country) (fun l => Some (joinNumbers w "/" l)))
                              "N/A");
             pr_capital := Some (coalesce (chain (capital country) head) "N/A");
             pr_flag :=
               Some ("Flag: " +:+ match FlagAscii with
                                  | Some _ => "Displayed"
                                  | None => "Not Available"
                                  end);
             pr_population :=
               Some (coalesce (chain (population country) (fun p => Some (toLocaleString w p)))
                              "N/A");
             pr_region := Some (coalesce (region country) "N/A");
             pr_subregion := Some (coalesce (subregion country) "N/A");
             pr_capitalLatLng :=
               Some (coalesce (chain (chain (capitalInfo country) capitalLatlng)
                                     (fun l => Some (joinNumbers w "/" l)))
                              "N/A");
             pr_timezones :=
               Some (coalesce (chain (timezones country) (fun l => Some (join " | " l)))
                              "N/A");
             pr_tld :=
               Some (coalesce (chain (tld country) (fun l => Some (join " | " l))) "N/A");
             pr_currencies := Some currencies;
             pr_languages := Some languages |}).

Definition random : World -> M (option string) := Countries.random.

End CountriesAlt.

(* ------------------------------------------------------------------ *)
(** ** Sample data *)

Definition bare (n : string) : Country :=
  {| name := {| common := n |}; capital := None; region := None; subregion := None;
     population := None; currencies := None; languages := None; timezones := None;
     latlng := None; tld := None; flag := None; flags := None; capitalInfo := None |}.

(** A record as the remote query returns it: the ten requested fields. *)
Definition france : Country :=
  {| name := {| common := "France" |};
     capital := Some ["Paris"];
     region := Some "Europe";
     subregion := Some "Western Europe";
     population := Some 67391582;
     currencies := Some [("EUR", {| currencyName := Some "Euro"; symbol := Some "E" |})];
     languages := Some [("fra", "French")];
     timezones := Some ["UTC+01:00"];
     latlng := Some [46 # 1; 2 # 1]%Q;
     tld := None;
     flag := None;
     flags := Some {| png := Some "https://flagcdn.com/w320/fr.png";
                      svg := Some "https://flagcdn.com/fr.svg" |};
     capitalInfo := None |}.

Definition francophonie : Country := bare "Francophonie".

Definition loaded (l : list Country) : State :=
  {| this_list := l; this_names := map (fun c => common (name c)) l;
     this_flags := []; cache := emptyCache; trace := [] |}.

(* ------------------------------------------------------------------ *)
(** ** The vocabulary of the statements, and more sample data *)

(** The two passes of [find]. *)
Definition nameIs (q : string) (c : Country) : bool :=
  String.eqb (toLowerCase (common (name c))) q.

Definition nameIncludes (q : string) (c : Country) : bool :=
  includes (toLowerCase (common (name c))) q.

Definition syncUrl : string := environment.baseUrl +:+ environment.queries.

Definition alertBody (force : bool) : string :=
  if force then ""
  else newline +:+ "This will only happen every "
         +:+ stringify environment.syncInterval +:+ " days".

Definition flagArtTitle : string :=
  "Generating ASCII art for each country flag. This may take a minute...".

(** The effects of a stale-or-forced [sync] up to and including the fetch. *)
Definition fetchEvents (force : bool) : list Event :=
  [LoggerAlert "Synchronizing countries database..." (alertBody force);
   FetchUrl syncUrl].

(** The two writes of the core persist. *)
Definition persistEvents (w : World) : list Event :=
  [CacheSaveJson "countries";
   CacheSaveTxt "last-synced" (stringify (nowAtSave w))].

Definition logged (evs : list Event) (s : State) : State :=
  {| this_list := this_list s; this_names := this_names s;
     this_flags := this_flags s; cache := cache s; trace := trace s ++ evs |}.

(** The state right after the core persist of a sync that fetched [cs]. *)
Definition persisted (w : World) (force : bool) (cs : list Country) (s : State) : State :=
  {| this_list := cs; this_names := this_names s; this_flags := this_flags s;
     cache := {| countriesJson := Some cs; flagsJson := flagsJson (cache s);
                 lastSyncedTxt := Some (stringify (nowAtSave w)) |};
     trace := trace s ++ fetchEvents force ++ persistEvents w |}.

(** The state after the flag-art table [fl] was stored. *)
Definition flagged (fl : list FlagAscii) (s : State) : State :=
  {| this_list := this_list s; this_names := this_names s; this_flags := fl;
     cache := {| countriesJson := countriesJson (cache s); flagsJson := Some fl;
                 lastSyncedTxt := lastSyncedTxt (cache s) |};
     trace := trace s ++ [CacheSaveJson "flags"] |}.

(** The state a stale-or-forced sync ends in. *)
Definition completed (w : World) (s : State) : State :=
  {| this_list := this_list s;
     this_names := map (fun c => common (name c)) (this_list s);
     this_flags := this_flags s; cache := cache s;
     trace := trace s ++ [LoggerSuccess ("Synced successfully: cache saved at "
                                          +:+ cacheDir w)] |}.

(** The state a sync that serves the cache ends in. *)
Definition served (cs : list Country) (s : State) : State :=
  {| this_list := cs; this_names := map (fun c => common (name c)) cs;
     this_flags := default [] (flagsJson (cache s)); cache := cache s;
     trace := trace s |}.

Ltac run :=
  unfold doFetch, doGetImageStrings, saveJsonCountries, saveTxtLastSynced,
    saveJsonFlags, setList, setNames, setFlags, setCache, emit, modify, lift,
    throw, bind, get, ret; simpl.

(** Flag-art generation reads nothing from, and writes nothing to, the
    object and the cache: it only adds effects to the trace. *)
Definition onlyLogs (s s' : State) : Prop :=
  this_list s' = this_list s /\ this_names s' = this_names s /\
  this_flags s' = this_flags s /\ cache s' = cache s /\
  exists evs, trace s' = trace s ++ evs.

Definition sampleCacheDir : string := "/home/user/.cache/countryfetch".

(** A world at time [now] whose network answers [r] and whose image
    converter answers [img]. *)
Definition world (now : Z) (r : Outcome Response) (img : string -> Outcome (list string))
    : World :=
  {| nowAtCheck := now; nowAtSave := now; fetch := fun _ => r;
     getImageStrings := img; mathRandom := 0%Q; cacheDir := sampleCacheDir;
     numberToString := fun q => stringify (Qfloor q);
     toLocaleString := stringify; flagUrls := fun _ => None |}.

Definition noImages : string -> Outcome (list string) := fun _ => Throw ImageError.

Definition oneLine : string -> Outcome (list string) := fun url => Return [url].

Definition answers (cs : list Country) : Outcome Response :=
  Return {| ok := true; text := "[...]"; json := Return cs |}.

Definition cached (cs : list Country) (lastSynced : string) : Cache :=
  {| countriesJson := Some cs; flagsJson := None; lastSyncedTxt := Some lastSynced |}.

Definition hour : Z := 60 * 60 * 1000.

(** A 500 response whose body is the JSON text of an empty array. *)
Definition serverError : Response :=
  {| ok := false; text := "[]"; json := Return [] |}.

(** A 502 response whose body is not JSON. *)
Definition badGateway : Response :=
  {| ok := false; text := "<html>Bad Gateway</html>"; json := Throw SyntaxError |}.

(** The callback of [findByCapital] on a country that has a capital list. *)
Definition hasCapital (q : string) (c : Country) : bool :=
  match capital c with
  | Some capitals => existsb (String.eqb q) (map toLowerCase capitals)
  | None => false
  end.

(** France without its population. *)
Definition uncounted : Country :=
  {| name := name france; capital := capital france; region := region france;
     subregion := subregion france; population := None;
     currencies := currencies france; languages := languages france;
     timezones := timezones france; latlng := latlng france; tld := tld france;
     flag := flag france; flags := flags france; capitalInfo := capitalInfo france |}.

(** France without its region. *)
Definition unplaced : Country :=
  {| name := name france; capital := capital france; region := None;
     subregion := subregion france; population := population france;
     currencies := currencies france; languages := languages france;
     timezones := timezones france; latlng := latlng france; tld := tld france;
     flag := flag france; flags := flags france; capitalInfo := capitalInfo france |}.

Definition offline : World := world 0 (Throw NetworkError) noImages.

(** The record of the last [logCountry] in a trace. *)
Fixpoint lastRecord (evs : list Event) : option PrintableRecord :=
  match evs with
  | [] => None
  | LoggerLogCountry r :: rest =>
      match lastRecord rest with
      | Some r' => Some r'
      | None => Some r
      end
  | _ :: rest => lastRecord rest
  end.

(** A country whose flag reference has the vector format only. *)
Definition vectorOnly : Country :=
  {| name := {| common := "Nepal" |}; capital := Some ["Kathmandu"];
     region := Some "Asia"; subregion := None; population := None;
     currencies := None; languages := None; timezones := None; latlng := None;
     tld := None; flag := None;
     flags := Some {| png := None; svg := Some "https://flagcdn.com/np.svg" |};
     capitalInfo := None |}.

(** The flag URL of the sibling text: the first of [flags.png] and
    [flags.svg] that is a non-empty string, and none when there is neither
    (or when it is the text "N/A"). *)
Definition flagUrlOf (c : Country) : option string :=
  let flagUrl :=
    coalesce (orElse (orElse (chain (flags c) png) (chain (flags c) svg)) (Some "N/A"))
             "N/A" in
  if String.eqb flagUrl "N/A" then None else Some flagUrl.

(** What the sibling text collects for one country. *)
Definition flagArtOf (render : string -> list string) (c : Country) : list FlagAscii :=
  match flagUrlOf c with
  | Some url => [{| countryName := common (name c); flagString := render url |}]
  | None => []
  end.

(** The callback that [findByCapital] hands to [Array.prototype.find]. *)
Definition capitalCallback (q : string) (c : Country) : Outcome bool :=
  match property (capital c) with
  | Throw e => Throw e
  | Return capitals =>
      let capitalsLowercase := map toLowerCase capitals in
      Return (existsb (String.eqb q) capitalsLowercase)
  end.

(** The (index, total) pairs of the progress reports in a run of effects. *)
Fixpoint progressOf (evs : list Event) : list (nat * nat) :=
  match evs with
  | [] => []
  | LoggerProgress index total _ _ :: rest => (index, total) :: progressOf rest
  | _ :: rest => progressOf rest
  end.

(** The reports [from + 1] of [total], ..., [from + count] of [total]. *)
Definition reports (total from count : nat) : list (nat * nat) :=
  map (fun k => (k, total)) (seq (S from) count).

(** A country that has the raster reference [generateFlagImgs] reads. *)
Definition hasPng (c : Country) : Prop :=
  exists f p, flags c = Some f /\ png f = Some p.

(** An entry of the flag-art table made for [c] from its [flags.png]. *)
Definition jpgEntry (render : string -> list string) (c : Country) (entry : FlagAscii)
    : Prop :=
  countryName entry = common (name c) /\
  exists f p, flags c = Some f /\ png f = Some p /\
              flagString entry = render (replace ".png" ".jpg" p).

(** Whether the sibling text finds a flag URL for a country. *)
Definition hasFlagUrl (c : Country) : bool :=
  match flagUrlOf c with
  | Some _ => true
  | None => false
  end.

(** The two passes of [findBy]. *)
Definition nameIsBy (lower : string -> string) (q : string) (c : Country) : bool :=
  String.eqb (lower (common (name c))) q.

Definition nameIncludesBy (lower : string -> string) (q : string) (c : Country) : bool :=
  includes (lower (common (name c))) q.

(** The callback of [findByCapitalBy]. *)
Definition capitalCallbackBy (lower : string -> string) (q : string) (c : Country)
    : Outcome bool :=
  match property (capital c) with
  | Throw e => Throw e
  | Return capitals =>
      let capitalsLowercase := map lower capitals in
      Return (existsb (String.eqb q) capitalsLowercase)
  end.

(** Whether one of the capitals of [c], lower-cased, is [q]. *)
Definition hasCapitalBy (lower : string -> string) (q : string) (c : Country) : bool :=
  match capital c with
  | Some capitals => existsb (String.eqb q) (map lower capitals)
  | None => false
  end.

(** Whether a string holds one of the letters [A] to [Z]. *)
Definition isAsciiUpper (c : ascii) : bool :=
  let n := nat_of_ascii c in ((65 <=? n) && (n <=? 90))%nat.

Fixpoint hasAsciiUpper (s : string) : bool :=
  match s with
  | EmptyString => false
  | String c s' => isAsciiUpper c || hasAsciiUpper s'
  end.

(** A lower-casing that also knows the letter A with ring: the ASCII
    lower-casing, then the first capital A with ring replaced. *)
Definition lowerNordic (s : string) : string := replace "Å" "å" (toLowerCase s).

(** The calls of the logger among the effects. *)
Definition isLoggerCall (e : Event) : bool :=
  match e with
  | LoggerAlert _ _ | LoggerSuccess _ | LoggerLog _ | LoggerError _
  | LoggerLogCountry _ | LoggerProgress _ _ _ _ | LoggerCapitalOf _ _ => true
  | FetchUrl _ | CacheSaveJson _ | CacheSaveTxt _ _ | ImageRequest _ => false
  end.

(** From [s] to [s'] nothing happened but calls of the logger: the object
    and the cache are the same, and the effects added are logger calls. *)
Definition onlyLoggerCalls (s s' : State) : Prop :=
  this_list s' = this_list s /\ this_names s' = this_names s /\
  this_flags s' = this_flags s /\ cache s' = cache s /\
  exists evs, trace s' = trace s ++ evs /\ forallb isLoggerCall evs = true.

(* ------------------------------------------------------------------ *)
(** ** Lists and strings *)

Lemma find_firstMatch {A : Type} (p : A -> bool) (xs : list A) (c : A) :
  List.find p xs = Some c <-> firstMatch p xs c.
Proof.
  induction xs as [|x xs IH]; simpl.
  - split; [discriminate|].
    intros (b & a & E & _). destruct b; discriminate.
  - destruct (p x) eqn:Hx.
    + split.
      * intros [= ->]. exists [], xs. repeat split; auto.
      * intros (b & a & E & Hc & Hb). destruct b as [|y b]; simpl in E.
        -- injection E as -> _. reflexivity.
        -- injection E as -> _. inversion Hb; subst. congruence.
    + rewrite IH. split.
      * intros (b & a & -> & Hc & Hb). exists (x :: b), a. repeat split; auto.
      * intros (b & a & E & Hc & Hb). destruct b as [|y b]; simpl in E.
        -- injection E as -> _. congruence.
        -- injection E as -> ->. inversion Hb; subst. exists b, a. auto.
Qed.

Lemma find_none_iff {A : Type} (p : A -> bool) (xs : list A) :
  List.find p xs = None <-> (forall x, In x xs -> p x = false).
Proof.
  split; [apply List.find_none|].
  induction xs as [|x xs IH]; simpl; intros H; [reflexivity|].
  rewrite (H x (or_introl eq_refl)). apply IH. intros y Hy. apply H. now right.
Qed.

Lemma find_some_ex {A : Type} (p : A -> bool) (xs : list A) (x : A) :
  In x xs -> p x = true -> exists c, List.find p xs = Some c.
Proof.
  intros Hin Hp. destruct (List.find p xs) as [c|] eqn:E; [eauto|].
  rewrite find_none_iff in E. rewrite (E x Hin) in Hp. discriminate.
Qed.

Lemma find_ext {A : Type} (p q : A -> bool) (xs : list A) :
  (forall x, p x = q x) -> List.find p xs = List.find q xs.
Proof.
  intros H. induction xs as [|x xs IH]; simpl; [reflexivity|].
  now rewrite H, IH.
Qed.

Lemma toLowerCase_empty (s : string) : toLowerCase s = "" <-> s = "".
Proof. destruct s; simpl; split; congruence. Qed.

Lemma startsWith_empty (s : string) : startsWith "" s = true.
Proof. destruct s; reflexivity. Qed.

Lemma includes_empty (s : string) : includes s "" = true.
Proof. destruct s; reflexivity. Qed.

Lemma startsWith_refl (s : string) : startsWith s s = true.
Proof. induction s as [|a s IH]; simpl; [reflexivity|]. now rewrite Ascii.eqb_refl. Qed.

Lemma includes_refl (s : string) : includes s s = true.
Proof. destruct s; simpl; [reflexivity|]. now rewrite Ascii.eqb_refl, startsWith_refl. Qed.

(* ------------------------------------------------------------------ *)
(** ** Look-up by name *)

Lemma find_unfold (q : string) (s : State) :
  Countries.find q s =
  (match List.find (nameIs (toLowerCase q)) (this_list s) with
   | Some c => Return c
   | None =>
       match List.find (nameIncludes (toLowerCase q)) (this_list s) with
       | Some c => Return c
       | None => Throw (Thrown ("Cannot find country named " +:+ toLowerCase q))
       end
   end, s).
Proof.
  unfold Countries.find, bind, get, ret, throw, nameIs, nameIncludes.
  destruct (List.find _ (this_list s)); [reflexivity|].
  destruct (List.find _ (this_list s)); reflexivity.
Qed.

Lemma nameIs_nameIncludes (q : string) (c : Country) :
  nameIs q c = true -> nameIncludes q c = true.
Proof.
  unfold nameIs, nameIncludes. intros H. apply String.eqb_eq in H. rewrite H.
  apply includes_refl.
Qed.

Lemma findBy_unfold (lower : string -> string) (q : string) (s : State) :
  Countries.findBy lower q s =
  (match List.find (nameIsBy lower (lower q)) (this_list s) with
   | Some c => Return c
   | None =>
       match List.find (nameIncludesBy lower (lower q)) (this_list s) with
       | Some c => Return c
       | None => Throw (Thrown ("Cannot find country named " +:+ lower q))
       end
   end, s).
Proof.
  unfold Countries.findBy, bind, get, ret, throw, nameIsBy, nameIncludesBy.
  destruct (List.find _ (this_list s)); [reflexivity|].
  destruct (List.find _ (this_list s)); reflexivity.
Qed.

(** [find] is [findBy] at the ASCII lower-casing. *)
Lemma find_findBy (q : string) (s : State) :
  Countries.find q s = Countries.findBy toLowerCase q s.
Proof. reflexivity. Qed.

Lemma nameIsBy_nameIncludesBy (lower : string -> string) (q : string) (c : Country) :
  nameIsBy lower q c = true -> nameIncludesBy lower q c = true.
Proof.
  unfold nameIsBy, nameIncludesBy. intros H. apply String.eqb_eq in H. rewrite H.
  apply includes_refl.
Qed.

(** C5.  [find] lower-cases the query.  It returns the first country, in
    dataset order, whose lower-cased common name equals the lower-cased
    query; when no name equals it, the first country whose lower-cased
    common name includes it; when no name includes it either, it throws
    "Cannot find country named ...".  Hence, for a country [c] of the
    dataset and a query that is [c]'s name up to letter case, [find]
    returns the first country of the dataset that has [c]'s name up to
    letter case.  The statement is about [find] with the lower-casing as
    a parameter, and holds whatever function [String.prototype.toLowerCase]
    is, on ASCII and on any other letters. *)
Theorem find_by_name (lower : string -> string) (s : State) :
  (forall q c,
      firstMatch (nameIsBy lower (lower q)) (this_list s) c ->
      Countries.findBy lower q s = (Return c, s)) /\
  (forall q c,
      (forall x, In x (this_list s) -> nameIsBy lower (lower q) x = false) ->
      firstMatch (nameIncludesBy lower (lower q)) (this_list s) c ->
      Countries.findBy lower q s = (Return c, s)) /\
  (forall q,
      (forall x, In x (this_list s) -> nameIsBy lower (lower q) x = false) ->
      (forall x, In x (this_list s) -> nameIncludesBy lower (lower q) x = false) ->
      Countries.findBy lower q s =
        (Throw (Thrown ("Cannot find country named " +:+ lower q)), s)) /\
  (forall c q,
      In c (this_list s) ->
      lower q = lower (common (name c)) ->
      exists c', Countries.findBy lower q s = (Return c', s) /\
                 firstMatch (nameIsBy lower (lower (common (name c)))) (this_list s) c').
Proof.
  repeat split.
  - intros q c H. apply find_firstMatch in H. now rewrite findBy_unfold, H.
  - intros q c Hno H. apply find_firstMatch in H. apply find_none_iff in Hno.
    now rewrite findBy_unfold, Hno, H.
  - intros q Hno Hno'. apply find_none_iff in Hno. apply find_none_iff in Hno'.
    now rewrite findBy_unfold, Hno, Hno'.
  - intros c q Hin Hq.
    assert (Hc : nameIsBy lower (lower q) c = true).
    { unfold nameIsBy. rewrite Hq. apply String.eqb_refl. }
    destruct (find_some_ex _ _ _ Hin Hc) as [c' Hc'].
    exists c'. rewrite findBy_unfold, Hc'. split; [reflexivity|].
    rewrite <- Hq. now apply find_firstMatch.
Qed.

Lemma find_by_name_witness :
  Countries.find "FRANCE" (loaded [francophonie; france])
  = (Return france, loaded [francophonie; france]).
Proof.
  rewrite find_findBy.
  apply (proj1 (find_by_name toLowerCase (loaded [francophonie; france]))).
  exists [francophonie], []. repeat split.
  constructor; [reflexivity|constructor].
Defined.

(** With a lower-casing that knows the letter, a name outside ASCII is
    found by its lower-case form; the ASCII lower-casing does not find
    it. *)
Example find_by_name_beyond_ascii :
  fst (Countries.findBy lowerNordic "åland" (loaded [france; bare "Åland Islands"]))
  = Return (bare "Åland Islands") /\
  fst (Countries.findBy toLowerCase "åland" (loaded [france; bare "Åland Islands"]))
  = Throw (Thrown "Cannot find country named åland").
Proof. split; reflexivity. Qed.

(** The fuzzy pass: "franc" equals no name and is included in both. *)
Example find_fuzzy_first :
  Countries.find "franc" (loaded [francophonie; france])
  = (Return francophonie, loaded [francophonie; france]).
Proof. reflexivity. Qed.

Example find_not_found :
  Countries.find "Spain" (loaded [francophonie; france])
  = (Throw (Thrown "Cannot find country named spain"), loaded [francophonie; france]).
Proof. reflexivity. Qed.

(** The empty query on a dataset whose second country has the empty name:
    the exact pass matches that country, so the first country of the
    dataset is not the one returned. *)
Lemma find_empty_query_not_first :
  ~ (forall (s : State) (c : Country) (rest : list Country),
        this_list s = c :: rest -> Countries.find "" s = (Return c, s)).
Proof.
  intros H. specialize (H (loaded [france; bare ""]) france [bare ""] eq_refl).
  discriminate H.
Qed.

(** C10, amended.  On a non-empty dataset [find] with the empty query
    succeeds: it returns the first country whose common name is empty when
    there is one, and the first country of the dataset when no common name
    is empty.  It throws only on the empty dataset. *)
Theorem find_empty_query (s : State) :
  (this_list s = [] ->
     Countries.find "" s = (Throw (Thrown "Cannot find country named "), s)) /\
  (forall e, Countries.find "" s = (Throw e, s) -> this_list s = []) /\
  (forall c,
      firstMatch (fun x => String.eqb (common (name x)) "") (this_list s) c ->
      Countries.find "" s = (Return c, s)) /\
  (forall c rest,
      this_list s = c :: rest ->
      (forall x, In x (this_list s) -> common (name x) <> "") ->
      Countries.find "" s = (Return c, s)).
Proof.
  assert (Hsame : forall x, nameIs "" x = String.eqb (common (name x)) "").
  { intros x. unfold nameIs. destruct (common (name x)); reflexivity. }
  repeat split.
  - intros E. rewrite find_unfold, E. reflexivity.
  - intros e. rewrite find_unfold. simpl toLowerCase.
    destruct (List.find (nameIs "") (this_list s)); [discriminate|].
    destruct (this_list s) as [|c rest]; [reflexivity|].
    simpl. unfold nameIncludes at 1. rewrite includes_empty. discriminate.
  - intros c H. rewrite find_unfold. simpl toLowerCase.
    apply find_firstMatch in H.
    rewrite (find_ext _ _ _ Hsame), H. reflexivity.
  - intros c rest E Hne. rewrite find_unfold. simpl toLowerCase.
    assert (Hno : List.find (nameIs "") (this_list s) = None).
    { apply find_none_iff. intros x Hx. rewrite Hsame.
      apply String.eqb_neq. auto. }
    rewrite Hno, E. simpl. unfold nameIncludes at 1. now rewrite includes_empty.
Qed.

Lemma find_empty_query_witness :
  Countries.find "" (loaded [france; francophonie])
  = (Return france, loaded [france; francophonie]).
Proof.
  apply (proj2 (proj2 (proj2 (find_empty_query (loaded [france; francophonie]))))
           france [francophonie] eq_refl).
  intros x [<-|[<-|[]]]; discriminate.
Defined.

(* ------------------------------------------------------------------ *)
(** ** Synchronisation: the states it goes through *)

Lemma state_eq (s s' : State) :
  this_list s = this_list s' -> this_names s = this_names s' ->
  this_flags s = this_flags s' -> cache s = cache s' -> trace s = trace s' ->
  s = s'.
Proof. destruct s, s'; simpl; intros; subst; reflexivity. Qed.

Lemma sync_stale (w : World) (s : State) (force flagAscii : bool) :
  Countries.shouldSync w s || force = true ->
  Countries.sync w force flagAscii s =
  match fetch w syncUrl with
  | Throw e => (Throw e, logged (fetchEvents force) s)
  | Return r =>
      match json r with
      | Throw e => (Throw e, logged (fetchEvents force) s)
      | Return cs =>
          if flagAscii then
            match Countries.generateFlagImgs w cs (Some flagArtTitle)
                    (persisted w force cs s) with
            | (Throw e, s2) => (Throw e, s2)
            | (Return fl, s2) => (Return (this_list s2), completed w (flagged fl s2))
            end
          else (Return cs, completed w (persisted w force cs s))
      end
  end.
Proof.
  intros Hs. unfold Countries.sync. unfold bind at 1. unfold get at 1.
  cbv beta iota. rewrite Hs. run.
  change (environment.baseUrl +:+ Countries.query) with syncUrl.
  destruct (fetch w syncUrl) as [r|e]; simpl.
  2:{ f_equal. apply state_eq; simpl; auto. now rewrite <- app_assoc. }
  destruct (json r) as [cs|e]; simpl.
  2:{ f_equal. apply state_eq; simpl; auto. now rewrite <- app_assoc. }
  destruct flagAscii; simpl.
  - match goal with
    | |- context [Countries.generateFlagImgs w cs ?t ?st] =>
        replace st with (persisted w force cs s)
    end.
    2:{ apply state_eq; simpl; auto. now rewrite <- !app_assoc. }
    destruct (Countries.generateFlagImgs w cs _ (persisted w force cs s)) as [[fl|e] s2];
      reflexivity.
  - f_equal. apply state_eq; simpl; auto. now rewrite <- !app_assoc.
Qed.

Lemma sync_fresh (w : World) (s : State) (flagAscii : bool) :
  Countries.shouldSync w s = false ->
  exists cs,
    countriesJson (cache s) = Some cs /\
    Countries.sync w false flagAscii s = (Return cs, served cs s).
Proof.
  intros Hs. unfold Countries.sync. unfold bind at 1. unfold get at 1.
  cbv beta iota. rewrite Hs. simpl orb. cbv iota.
  unfold Countries.shouldSync, existsCountriesJson in Hs.
  destruct (countriesJson (cache s)) as [cs|] eqn:E; [|discriminate Hs].
  exists cs. split; [reflexivity|]. run. reflexivity.
Qed.

Lemma alt_sync_stale (w : World) (s : State) (force flagAscii : bool) :
  CountriesAlt.shouldSync w s || force = true ->
  CountriesAlt.sync w force flagAscii s =
  match fetch w syncUrl with
  | Throw e => (Throw e, logged (fetchEvents force) s)
  | Return r =>
      if ok r then
        match json r with
        | Throw e => (Throw e, logged (fetchEvents force) s)
        | Return cs =>
            if flagAscii then
              match CountriesAlt.generateFlagImgs w cs (Some flagArtTitle)
                      (persisted w force cs s) with
              | (Throw e, s2) => (Throw e, s2)
              | (Return fl, s2) => (Return (this_list s2), completed w (flagged fl s2))
              end
            else (Return cs, completed w (persisted w force cs s))
        end
      else (Throw (ErrorObject ("API Error: " +:+ text r)), logged (fetchEvents force) s)
  end.
Proof.
  intros Hs. unfold CountriesAlt.sync. unfold bind at 1. unfold get at 1.
  cbv beta iota. rewrite Hs. run.
  change (environment.baseUrl +:+ CountriesAlt.query) with syncUrl.
  destruct (fetch w syncUrl) as [r|e]; simpl.
  2:{ f_equal. apply state_eq; simpl; auto. now rewrite <- app_assoc. }
  destruct (ok r); simpl.
  2:{ f_equal. apply state_eq; simpl; auto. now rewrite <- app_assoc. }
  destruct (json r) as [cs|e]; simpl.
  2:{ f_equal. apply state_eq; simpl; auto. now rewrite <- app_assoc. }
  destruct flagAscii; simpl.
  - match goal with
    | |- context [CountriesAlt.generateFlagImgs w cs ?t ?st] =>
        replace st with (persisted w force cs s)
    end.
    2:{ apply state_eq; simpl; auto. now rewrite <- !app_assoc. }
    destruct (CountriesAlt.generateFlagImgs w cs _ (persisted w force cs s))
      as [[fl|e] s2]; reflexivity.
  - f_equal. apply state_eq; simpl; auto. now rewrite <- !app_assoc.
Qed.

Lemma alt_sync_fresh (w : World) (s : State) (flagAscii : bool) :
  CountriesAlt.shouldSync w s = false ->
  exists cs,
    countriesJson (cache s) = Some cs /\
    CountriesAlt.sync w false flagAscii s = (Return cs, served cs s).
Proof.
  intros Hs. unfold CountriesAlt.sync. unfold bind at 1. unfold get at 1.
  cbv beta iota. rewrite Hs. simpl orb. cbv iota.
  unfold CountriesAlt.shouldSync, existsCountriesJson in Hs.
  destruct (countriesJson (cache s)) as [cs|] eqn:E; [|discriminate Hs].
  exists cs. split; [reflexivity|]. run. reflexivity.
Qed.

Lemma onlyLogs_refl (s : State) : onlyLogs s s.
Proof. repeat split. exists []. now rewrite app_nil_r. Qed.

Lemma onlyLogs_trans (s1 s2 s3 : State) : onlyLogs s1 s2 -> onlyLogs s2 s3 -> onlyLogs s1 s3.
Proof.
  intros (A1 & A2 & A3 & A4 & e1 & A5) (B1 & B2 & B3 & B4 & e2 & B5).
  repeat split; try congruence.
  exists (e1 ++ e2). now rewrite B5, A5, app_assoc.
Qed.

Lemma onlyLogs_logged (evs : list Event) (s : State) : onlyLogs s (logged evs s).
Proof. repeat split. now exists evs. Qed.

Lemma generateFlagImgsFrom_onlyLogs (w : World) (total : nat) (t : option string)
    (cs : list Country) (data : list FlagAscii) (i : nat) (s : State) :
  onlyLogs s (snd (Countries.generateFlagImgsFrom w total t cs data i s)).
Proof.
  revert data i s. induction cs as [|c cs IH]; intros data i s; simpl.
  - apply onlyLogs_refl.
  - run. destruct (property (flags c)) as [f|e]; simpl; [|apply onlyLogs_refl].
    destruct (property (png f)) as [p|e]; simpl; [|apply onlyLogs_refl].
    destruct (getImageStrings w _) as [img|e]; simpl.
    + eapply onlyLogs_trans; [|apply IH].
      repeat split. simpl. rewrite <- app_assoc. eauto.
    + repeat split. simpl. eauto.
Qed.

(** The loop on [l1 ++ l2] is the loop on [l1] followed, when it returns,
    by the loop on [l2]: the state after the first countries of a dataset
    is the state the loop on those countries ends in. *)
Lemma generateFlagImgsFrom_app (w : World) (total : nat) (t : option string)
    (l1 l2 : list Country) (data : list FlagAscii) (i : nat) (s : State) :
  Countries.generateFlagImgsFrom w total t (l1 ++ l2) data i s =
  match Countries.generateFlagImgsFrom w total t l1 data i s with
  | (Return data', s') =>
      Countries.generateFlagImgsFrom w total t l2 data' (i + length l1)%nat s'
  | (Throw e, s') => (Throw e, s')
  end.
Proof.
  revert data i s. induction l1 as [|c l1 IH]; intros data i s; simpl.
  - now rewrite Nat.add_0_r.
  - run. destruct (property (flags c)) as [f|e]; simpl; [|reflexivity].
    destruct (property (png f)) as [p|e]; simpl; [|reflexivity].
    destruct (getImageStrings w _) as [img|e]; simpl; [|reflexivity].
    rewrite IH. now replace (S i + length l1)%nat with (i + S (length l1))%nat by lia.
Qed.

Lemma alt_generateFlagImgsFrom_onlyLogs (w : World) (total : nat) (t : option string)
    (cs : list Country) (data : list FlagAscii) (i : nat) (s : State) :
  onlyLogs s (snd (CountriesAlt.generateFlagImgsFrom w total t cs data i s)).
Proof.
  revert data i s. induction cs as [|c cs IH]; intros data i s; simpl.
  - apply onlyLogs_refl.
  - destruct (String.eqb _ "N/A"); [apply IH|].
    run. destruct (getImageStrings w _) as [img|e]; simpl.
    + eapply onlyLogs_trans; [|apply IH].
      repeat split. simpl. rewrite <- app_assoc. eauto.
    + repeat split. simpl. eauto.
Qed.

(* ------------------------------------------------------------------ *)
(** ** The freshness check *)

(** Without [force], [sync] fetches exactly when [shouldSync] holds. *)
Lemma sync_fetches_when_stale (w : World) (s : State) (flagAscii : bool) :
  (Countries.shouldSync w s = true ->
     exists evs, trace (snd (Countries.sync w false flagAscii s))
                 = trace s ++ fetchEvents false ++ evs) /\
  (Countries.shouldSync w s = false ->
     trace (snd (Countries.sync w false flagAscii s)) = trace s /\
     Some (this_list (snd (Countries.sync w false flagAscii s)))
       = countriesJson (cache s)).
Proof.
  split; intros Hs.
  - rewrite sync_stale by now rewrite Hs.
    destruct (fetch w syncUrl) as [r|e]; simpl.
    2:{ exists []. simpl. now rewrite ?app_nil_r. }
    destruct (json r) as [cs|e]; simpl.
    2:{ exists []. simpl. now rewrite ?app_nil_r. }
    destruct flagAscii.
    + pose proof (generateFlagImgsFrom_onlyLogs w (length cs) (Some flagArtTitle)
                    cs [] O (persisted w false cs s)) as (_ & _ & _ & _ & evs & Ht).
      fold (Countries.generateFlagImgs w cs (Some flagArtTitle)) in Ht.
      destruct (Countries.generateFlagImgs w cs _ _) as [[fl|e] s2]; simpl in *.
      * rewrite Ht. rewrite <- !app_assoc. eauto.
      * rewrite Ht. rewrite <- !app_assoc. eauto.
    + simpl. rewrite <- !app_assoc. eauto.
  - destruct (sync_fresh w s flagAscii Hs) as (cs & E & ->). simpl. auto.
Qed.

(** C1.  A cache that holds a dataset and the timestamp [0], read at
    [600 000 000] ms: the age is below seven times 24 hours, yet
    [shouldSync] holds and [sync] without [force] fetches, since the code
    compares the age with seven times 23 hours. *)
Theorem shouldSync_week_of_23_hours :
  let w := world 600000000 (answers [france]) noImages in
  let s := initial (cached [france] "0") in
  NumberOf (lastSyncedTxt (cache s)) = Num 0 /\
  nowAtCheck w - 0 <= environment.syncInterval * (24 * hour) /\
  Countries.shouldSync w s = true /\
  trace (snd (Countries.sync w false false s))
  = [LoggerAlert "Synchronizing countries database..." (alertBody false);
     FetchUrl syncUrl;
     CacheSaveJson "countries";
     CacheSaveTxt "last-synced" "600000000";
     LoggerSuccess ("Synced successfully: cache saved at " +:+ sampleCacheDir)].
Proof.
  repeat split.
  - intros H. discriminate H.
Qed.

(** The sibling text multiplies the interval by a further seven: a cache
    that is eight days old is still served. *)
Example alt_shouldSync_eight_days :
  let w := world (8 * 24 * hour) (answers [france]) noImages in
  let s := initial (cached [france] "0") in
  CountriesAlt.shouldSync w s = false /\
  CountriesAlt.sync w false false s = (Return [france], served [france] s).
Proof. split; reflexivity. Qed.

(** The two scenarios of the specification hold in both texts. *)
Example shouldSync_scenarios :
  let old := initial (cached [france] "0") in
  Countries.shouldSync (world (8 * 24 * hour) (answers []) noImages) old = true /\
  Countries.shouldSync (world 0 (answers []) noImages) old = false.
Proof. split; reflexivity. Qed.

(* ------------------------------------------------------------------ *)
(** ** Forced synchronisation *)

(** C2.  With [force], whatever the cache holds, [sync] announces the
    synchronisation and issues the fetch; and when the response body parses
    to a dataset, that dataset replaces the cached one, the timestamp is
    rewritten, and the dataset is the one the object serves. *)
Theorem sync_force_refetches (w : World) (s : State) (flagAscii : bool) :
  (exists evs,
      trace (snd (Countries.sync w true flagAscii s))
      = trace s ++ [LoggerAlert "Synchronizing countries database..." "";
                    FetchUrl syncUrl] ++ evs) /\
  (forall r cs,
      fetch w syncUrl = Return r ->
      json r = Return cs ->
      let s' := snd (Countries.sync w true flagAscii s) in
      countriesJson (cache s') = Some cs /\
      lastSyncedTxt (cache s') = Some (stringify (nowAtSave w)) /\
      this_list s' = cs /\
      exists evs, trace s' = trace s ++ fetchEvents true ++ persistEvents w ++ evs).
Proof.
  assert (Hs : Countries.shouldSync w s || true = true) by apply orb_true_r.
  rewrite (sync_stale w s true flagAscii Hs).
  change [LoggerAlert "Synchronizing countries database..." ""; FetchUrl syncUrl]
    with (fetchEvents true).
  assert (Hgen : forall cs,
             onlyLogs (persisted w true cs s)
               (snd (Countries.generateFlagImgs w cs (Some flagArtTitle)
                       (persisted w true cs s)))).
  { intros cs. apply generateFlagImgsFrom_onlyLogs. }
  split.
  - destruct (fetch w syncUrl) as [r|e]; simpl snd.
    2:{ exists []. simpl. now rewrite ?app_nil_r. }
    destruct (json r) as [cs|e]; simpl snd.
    2:{ exists []. simpl. now rewrite ?app_nil_r. }
    destruct flagAscii.
    + destruct (Hgen cs) as (_ & _ & _ & _ & evs & Ht).
      destruct (Countries.generateFlagImgs w cs _ _) as [[fl|e] s2]; simpl in *;
        rewrite Ht; rewrite <- !app_assoc; simpl; eauto.
    + simpl. rewrite <- !app_assoc. simpl. eauto.
  - intros r cs Hr Hj. rewrite Hr, Hj. destruct flagAscii.
    + destruct (Hgen cs) as (Hl & _ & _ & Hc & evs & Ht).
      destruct (Countries.generateFlagImgs w cs _ _) as [[fl|e] s2]; simpl in *;
        rewrite Hc, Hl, Ht; repeat split; rewrite <- !app_assoc; simpl; eauto.
    + simpl. repeat split. rewrite <- !app_assoc. simpl. eauto.
Qed.

Lemma sync_force_refetches_witness :
  let w := world 5 (answers [france]) noImages in
  let s' := snd (Countries.sync w true false (initial (cached [] "5"))) in
  countriesJson (cache s') = Some [france] /\ lastSyncedTxt (cache s') = Some "5".
Proof.
  intros w s'.
  destruct (proj2 (sync_force_refetches w (initial (cached [] "5")) false)
              {| ok := true; text := "[...]"; json := Return [france] |} [france]
              eq_refl eq_refl) as (H1 & H2 & _).
  split; [exact H1 | exact H2].
Defined.

(** The sibling text does the same once the response is a success. *)
Lemma alt_sync_force_refetches (w : World) (s : State) (flagAscii : bool)
    (r : Response) (cs : list Country) :
  fetch w syncUrl = Return r -> ok r = true -> json r = Return cs ->
  let s' := snd (CountriesAlt.sync w true flagAscii s) in
  countriesJson (cache s') = Some cs /\
  lastSyncedTxt (cache s') = Some (stringify (nowAtSave w)) /\
  this_list s' = cs /\
  exists evs, trace s' = trace s ++ fetchEvents true ++ persistEvents w ++ evs.
Proof.
  intros Hr Hok Hj.
  assert (Hs : CountriesAlt.shouldSync w s || true = true) by apply orb_true_r.
  rewrite (alt_sync_stale w s true flagAscii Hs), Hr, Hok, Hj.
  destruct flagAscii.
  - pose proof (alt_generateFlagImgsFrom_onlyLogs w (length cs) (Some flagArtTitle)
                  cs [] O (persisted w true cs s)) as (Hl & _ & _ & Hc & evs & Ht).
    fold (CountriesAlt.generateFlagImgs w cs (Some flagArtTitle)) in Hl, Hc, Ht.
    destruct (CountriesAlt.generateFlagImgs w cs _ _) as [[fl|e] s2]; simpl in *;
      rewrite Hc, Hl, Ht; repeat split; rewrite <- !app_assoc; simpl; eauto.
  - simpl. repeat split. rewrite <- !app_assoc. simpl. eauto.
Qed.

(* ------------------------------------------------------------------ *)
(** ** The core persist comes before flag-art generation *)

(** C3.  In a stale-or-forced [sync] that asks for flag art, generation
    starts in a state where the dataset is stored under "countries" and the
    timestamp under "last-synced", the two writes being the last effects so
    far.  Generation never touches the cache; when it throws, [sync] throws
    the same error and leaves the cache exactly as the core persist made
    it, the earlier flag-art table included; when it returns, only the
    "flags" entry is added. *)
Theorem persist_before_flag_art (w : World) (s : State) (force : bool)
    (r : Response) (cs : list Country) :
  Countries.shouldSync w s || force = true ->
  fetch w syncUrl = Return r ->
  json r = Return cs ->
  let s1 := persisted w force cs s in
  let generation := Countries.generateFlagImgs w cs (Some flagArtTitle) s1 in
  countriesJson (cache s1) = Some cs /\
  lastSyncedTxt (cache s1) = Some (stringify (nowAtSave w)) /\
  flagsJson (cache s1) = flagsJson (cache s) /\
  trace s1 = trace s ++ fetchEvents force
               ++ [CacheSaveJson "countries";
                   CacheSaveTxt "last-synced" (stringify (nowAtSave w))] /\
  cache (snd generation) = cache s1 /\
  (forall k,
     cache (snd (Countries.generateFlagImgsFrom w (length cs) (Some flagArtTitle)
                   (firstn k cs) [] O s1)) = cache s1) /\
  (exists evs, trace (snd generation) = trace s1 ++ evs) /\
  (forall e, fst generation = Throw e ->
     Countries.sync w force true s = (Throw e, snd generation)) /\
  (forall fl, fst generation = Return fl ->
     let s' := snd (Countries.sync w force true s) in
     fst (Countries.sync w force true s) = Return cs /\
     cache s' = {| countriesJson := Some cs; flagsJson := Some fl;
                   lastSyncedTxt := Some (stringify (nowAtSave w)) |}).
Proof.
  intros Hs Hr Hj s1 generation.
  pose proof (generateFlagImgsFrom_onlyLogs w (length cs) (Some flagArtTitle)
                cs [] O s1) as (Hl & _ & _ & Hc & Ht).
  fold (Countries.generateFlagImgs w cs (Some flagArtTitle)) in Hl, Hc, Ht.
  fold generation in Hl, Hc, Ht.
  do 4 (split; [reflexivity|]).
  split; [exact Hc|].
  split; [intros k; apply generateFlagImgsFrom_onlyLogs|].
  split; [exact Ht|]. split.
  - intros e He. rewrite (sync_stale w s force true Hs), Hr, Hj.
    fold s1. fold generation. destruct generation as [[fl|e'] s2]; simpl in *.
    + discriminate He.
    + now injection He as ->.
  - intros fl Hfl. rewrite (sync_stale w s force true Hs), Hr, Hj.
    fold s1. fold generation. destruct generation as [[fl'|e'] s2]; simpl in *.
    + injection Hfl as ->. split; [now rewrite Hl | now rewrite Hc].
    + discriminate Hfl.
Qed.

(** The image converter fails on the first flag: the dataset and the
    timestamp are in the cache all the same. *)
Lemma persist_before_flag_art_witness :
  let w := world 9 (answers [france]) noImages in
  Countries.sync w false true (initial emptyCache)
  = (Throw ImageError,
     snd (Countries.generateFlagImgs w [france] (Some flagArtTitle)
            (persisted w false [france] (initial emptyCache)))) /\
  cache (snd (Countries.sync w false true (initial emptyCache)))
  = {| countriesJson := Some [france]; flagsJson := None; lastSyncedTxt := Some "9" |}.
Proof.
  intros w.
  destruct (persist_before_flag_art w (initial emptyCache) false
              {| ok := true; text := "[...]"; json := Return [france] |} [france]
              eq_refl eq_refl eq_refl)
    as (_ & _ & _ & _ & Hc & _ & _ & Hthrow & _).
  specialize (Hthrow ImageError eq_refl).
  split; [exact Hthrow|]. rewrite Hthrow. exact Hc.
Defined.

Example flag_art_failure_trace :
  trace (snd (Countries.sync (world 9 (answers [france]) noImages) false true
                (initial emptyCache)))
  = [LoggerAlert "Synchronizing countries database..." (alertBody false);
     FetchUrl syncUrl;
     CacheSaveJson "countries";
     CacheSaveTxt "last-synced" "9";
     ImageRequest "https://flagcdn.com/w320/fr.jpg"].
Proof. reflexivity. Qed.

(** The same ordering in the sibling text. *)
Lemma alt_persist_before_flag_art (w : World) (s : State) (force : bool)
    (r : Response) (cs : list Country) :
  CountriesAlt.shouldSync w s || force = true ->
  fetch w syncUrl = Return r -> ok r = true -> json r = Return cs ->
  let s1 := persisted w force cs s in
  let generation := CountriesAlt.generateFlagImgs w cs (Some flagArtTitle) s1 in
  cache (snd generation) = cache s1 /\
  (forall e, fst generation = Throw e ->
     CountriesAlt.sync w force true s = (Throw e, snd generation)).
Proof.
  intros Hs Hr Hok Hj s1 generation.
  pose proof (alt_generateFlagImgsFrom_onlyLogs w (length cs) (Some flagArtTitle)
                cs [] O s1) as (_ & _ & _ & Hc & _).
  split; [exact Hc|].
  intros e He. rewrite (alt_sync_stale w s force true Hs), Hr, Hok, Hj.
  fold s1. fold generation. destruct generation as [[fl|e'] s2]; simpl in *.
  - discriminate He.
  - now injection He as ->.
Qed.

(* ------------------------------------------------------------------ *)
(** ** A response that is not a success *)

(** C4.  [src/countries.ts] never reads [response.ok]: on a response that is
    not a success and whose body parses, [sync] returns normally, having
    replaced the cached dataset by the body and rewritten the timestamp;
    when the body does not parse, the error is the parser's and does not
    carry the body. *)
Theorem sync_ignores_response_status :
  let w := world 1000 (Return serverError) noImages in
  let s := initial (cached [france] "900") in
  Countries.shouldSync w s = false /\
  fst (Countries.sync w true false s) = Return [] /\
  cache (snd (Countries.sync w true false s))
  = {| countriesJson := Some []; flagsJson := None; lastSyncedTxt := Some "1000" |} /\
  fst (Countries.sync (world 1000 (Return badGateway) noImages) true false s)
  = Throw SyntaxError.
Proof. repeat split. Qed.

(** The sibling text reads [response.ok]: it throws [Error("API Error: " +
    body)] and leaves the object and the cache as they were. *)
Lemma alt_sync_non_success (w : World) (s : State) (force flagAscii : bool)
    (r : Response) :
  CountriesAlt.shouldSync w s || force = true ->
  fetch w syncUrl = Return r ->
  ok r = false ->
  CountriesAlt.sync w force flagAscii s
  = (Throw (ErrorObject ("API Error: " +:+ text r)), logged (fetchEvents force) s) /\
  cache (logged (fetchEvents force) s) = cache s /\
  this_list (logged (fetchEvents force) s) = this_list s.
Proof.
  intros Hs Hr Hok. rewrite (alt_sync_stale w s force flagAscii Hs), Hr, Hok.
  repeat split.
Qed.

Example alt_sync_server_error :
  let s := initial (cached [france] "900") in
  CountriesAlt.sync (world 1000 (Return serverError) noImages) true false s
  = (Throw (ErrorObject "API Error: []"), logged (fetchEvents true) s).
Proof. reflexivity. Qed.

(* ------------------------------------------------------------------ *)
(** ** Look-up by capital *)

Lemma findWith_total {A : Type} (p : A -> Outcome bool) (q : A -> bool) (xs : list A) :
  Forall (fun x => p x = Return (q x)) xs ->
  findWith p xs = Return (List.find q xs).
Proof.
  induction 1 as [|x xs Hx _ IH]; simpl; [reflexivity|].
  rewrite Hx. destruct (q x); [reflexivity|exact IH].
Qed.

(** When every country carries a capital list, [findByCapital] returns the
    first country one of whose lower-cased capitals equals the argument as
    it was given, and throws when there is none. *)
Lemma findByCapital_unfold (q : string) (s : State) :
  Forall (fun c => capital c <> None) (this_list s) ->
  Countries.findByCapital q s =
  (match List.find (hasCapital q) (this_list s) with
   | Some c => Return c
   | None => Throw (Thrown ("Could not find the country of capital: " +:+ q))
   end, s).
Proof.
  intros Hall. unfold Countries.findByCapital. run.
  rewrite (findWith_total _ (hasCapital q)).
  - destruct (List.find (hasCapital q) (this_list s)); reflexivity.
  - eapply List.Forall_impl; [|exact Hall]. intros c Hc. unfold hasCapital.
    destruct (capital c) eqn:E; [reflexivity|]. now contradiction Hc.
Qed.

(** A substring of a capital is no match, and an empty capital list never
    matches. *)
Example findByCapital_substring :
  Countries.findByCapital "par" (loaded [france])
  = (Throw (Thrown "Could not find the country of capital: par"), loaded [france]).
Proof. reflexivity. Qed.

Lemma hasCapital_empty_list (q : string) (c : Country) :
  capital c = Some [] -> hasCapital q c = false.
Proof. unfold hasCapital. now intros ->. Qed.

Example findByCapital_lowercase :
  Countries.findByCapital "paris" (loaded [francophonie; france])
  = (Throw TypeError, loaded [francophonie; france]) /\
  Countries.findByCapital "paris" (loaded [france])
  = (Return france, loaded [france]).
Proof. split; reflexivity. Qed.

(** C6.  [findByCapital] lower-cases the capitals of the dataset and not
    the query: "Paris" does not find the country whose capital is "Paris",
    neither directly nor through [capitalOf], although the two agree up to
    letter case; [find], by contrast, lower-cases its query. *)
Theorem findByCapital_query_not_lowercased :
  let s := loaded [france] in
  capital france = Some ["Paris"] /\
  toLowerCase "Paris" = "paris" /\
  Countries.find "FRANCE" s = (Return france, s) /\
  Countries.findByCapital "Paris" s
  = (Throw (Thrown "Could not find the country of capital: Paris"), s) /\
  Countries.capitalOf "Paris" s
  = (Throw (Thrown "Could not find the country of capital: Paris"), s) /\
  Countries.findByCapital (toLowerCase "Paris") s = (Return france, s).
Proof. repeat (split; [reflexivity|]). reflexivity. Qed.

(* ------------------------------------------------------------------ *)
(** ** Printing a country *)

(** C7.  [print] of [src/countries.ts] reads the optional fields
    unguarded.  A country without a population makes it throw before
    anything is logged; a country without a region is shown with an
    undefined region; and a record as the remote query returns it, which has
    no [flag], is shown with an undefined flag, with no marker at all when
    the flag art is missing. *)
Theorem print_unguarded_fields :
  Countries.print offline "france" (loaded [uncounted])
  = (Throw TypeError, loaded [uncounted]) /\
  (pr_region <$> lastRecord (trace (snd (Countries.print offline "france"
                                           (loaded [unplaced])))))
  = Some None /\
  trace (snd (Countries.print offline "france" (loaded [france])))
  = [LoggerLogCountry
       {| pr_country := Some "France";
          pr_latlng := Some "46/2";
          pr_capital := Some "Paris";
          pr_flag := None;
          pr_population := Some "67391582";
          pr_region := Some "Europe";
          pr_subregion := Some "Western Europe";
          pr_capitalLatLng := Some "N/A";
          pr_timezones := Some "UTC+01:00";
          pr_tld := Some "N/A";
          pr_currencies := Some "Euro [E](EUR)";
          pr_languages := Some "French" |};
     LoggerLog (Some "Flag: https://flagcdn.com/unknown.svg")].
Proof. repeat (split; [reflexivity|]). reflexivity. Qed.

(** The sibling text guards every optional field: whenever the country is
    found, [print] returns, its last effect is one [logCountry], every
    field of the record is defined, and each absent field is shown as
    "N/A", the missing flag art as "Flag: Not Available". *)
Lemma alt_print_marks_absent_fields (w : World) (s : State) (q : string) (c : Country) :
  CountriesAlt.find q s = (Return c, s) ->
  exists record before,
    CountriesAlt.print w q s
    = (Return tt, logged (before ++ [LoggerLogCountry record]) s) /\
    (latlng c = None -> pr_latlng record = Some "N/A") /\
    (capital c = None \/ capital c = Some [] -> pr_capital record = Some "N/A") /\
    (population c = None -> pr_population record = Some "N/A") /\
    (region c = None -> pr_region record = Some "N/A") /\
    (subregion c = None -> pr_subregion record = Some "N/A") /\
    (capitalInfo c = None -> pr_capitalLatLng record = Some "N/A") /\
    (timezones c = None -> pr_timezones record = Some "N/A") /\
    (tld c = None -> pr_tld record = Some "N/A") /\
    (List.find (fun i => String.eqb (countryName i) (common (name c))) (this_flags s)
       = None -> pr_flag record = Some "Flag: Not Available") /\
    (forall field, In field [pr_country; pr_latlng; pr_capital; pr_flag;
                             pr_population; pr_region; pr_subregion;
                             pr_capitalLatLng; pr_timezones; pr_tld;
                             pr_currencies; pr_languages] ->
                   field record <> None).
Proof.
  intros Hfind. unfold CountriesAlt.print. unfold bind at 1. rewrite Hfind.
  run.
  destruct (List.find _ (this_flags s)) as [f|] eqn:Hflag; simpl.
  - eexists. eexists [_; _; _]. split.
    + f_equal. apply state_eq; simpl; try reflexivity.
      rewrite <- !app_assoc. reflexivity.
    + simpl. repeat split; try (intros ->; reflexivity); try discriminate.
      * intros [-> | ->]; reflexivity.
      * intros field Hin. repeat (destruct Hin as [<-|Hin]; [discriminate|]).
        destruct Hin.
  - eexists. eexists [_; _; _; _]. split.
    + f_equal. apply state_eq; simpl; try reflexivity.
      rewrite <- !app_assoc. reflexivity.
    + simpl. repeat split; try (intros ->; reflexivity); try discriminate.
      * intros [-> | ->]; reflexivity.
      * intros field Hin. repeat (destruct Hin as [<-|Hin]; [discriminate|]).
        destruct Hin.
Qed.

Example alt_print_bare :
  lastRecord (trace (snd (CountriesAlt.print offline "atlantis" (loaded [bare "Atlantis"]))))
  = Some {| pr_country := Some "Atlantis";
            pr_latlng := Some "N/A";
            pr_capital := Some "N/A";
            pr_flag := Some "Flag: Not Available";
            pr_population := Some "N/A";
            pr_region := Some "N/A";
            pr_subregion := Some "N/A";
            pr_capitalLatLng := Some "N/A";
            pr_timezones := Some "N/A";
            pr_tld := Some "N/A";
            pr_currencies := Some "";
            pr_languages := Some "" |}.
Proof. reflexivity. Qed.

(* ------------------------------------------------------------------ *)
(** ** A random name *)

Lemma floor_unique (x : Q) (i : Z) :
  (inject_Z i <= x)%Q -> (x < inject_Z (i + 1))%Q -> floor x = i.
Proof.
  intros Hlo Hhi. unfold floor.
  assert (H1 : i <= Qfloor x).
  { rewrite <- (Qfloor_Z i). now apply Qfloor_resp_le. }
  assert (H2 : Qfloor x < i + 1).
  { rewrite Zlt_Qlt. eapply Qle_lt_trans; [apply Qfloor_le|exact Hhi]. }
  lia.
Qed.

Lemma floor_bounds (x : Q) : (inject_Z (floor x) <= x)%Q /\ (x < inject_Z (floor x + 1))%Q.
Proof. unfold floor. split; [apply Qfloor_le|apply Qlt_floor]. Qed.

Lemma pow2_pos (e : Z) : (0 < pow2 e)%Q.
Proof. apply Qpower_0_lt. reflexivity. Qed.

Lemma pow2_plus (a b : Z) : (pow2 (a + b) == pow2 a * pow2 b)%Q.
Proof. apply Qpower_plus. discriminate. Qed.

Lemma pow2_Z (k : Z) : 0 <= k -> (inject_Z (2 ^ k) == pow2 k)%Q.
Proof. intros H. unfold pow2. now rewrite Zpower_Qpower. Qed.

Lemma pow2_lt (a b : Z) : a < b -> (pow2 a < pow2 b)%Q.
Proof. intros H. apply Qpower_lt_compat_l; [exact H|reflexivity]. Qed.

Lemma pow2_lt_inv (a b : Z) : (pow2 a < pow2 b)%Q -> a < b.
Proof. intros H. apply (Qpower_lt_compat_l_inv 2); [exact H|reflexivity]. Qed.

Lemma Qmake_as_quotient (x : Q) : (x == inject_Z (Qnum x) / inject_Z (Zpos (Qden x)))%Q.
Proof. destruct x as [p q]. simpl. apply Qmake_Qdiv. Qed.

(** [exponentOf] is the floor of the binary logarithm. *)
Lemma exponentOf_le (x : Q) : (0 < x)%Q -> (pow2 (exponentOf x) <= x)%Q.
Proof.
  intros Hx. unfold exponentOf.
  set (a := Qnum x). set (b := Qden x).
  set (la := Z.log2 a). set (lb := Z.log2 (Zpos b)).
  destruct (Qle_bool (pow2 (la - lb)) x) eqn:Hb.
  - now apply Qle_bool_iff.
  - assert (Ha : 0 < a).
    { destruct x as [p q]. unfold Qlt in Hx. simpl in *. subst a. simpl. lia. }
    destruct (Z.log2_spec a Ha) as [Hla _].
    destruct (Z.log2_spec (Zpos b) ltac:(lia)) as [_ Hlb].
    fold la in Hla. fold lb in Hlb.
    assert (Hla0 : 0 <= la) by apply Z.log2_nonneg.
    assert (Hlb0 : 0 <= lb) by apply Z.log2_nonneg.
    replace (la - lb - 1) with (la + - (lb + 1)) by lia.
    rewrite pow2_plus. unfold pow2 at 2. rewrite Qpower_opp.
    fold (pow2 (lb + 1)).
    rewrite <- (pow2_Z la) by lia. rewrite <- (pow2_Z (lb + 1)) by lia.
    rewrite (Qmake_as_quotient x). fold a b.
    assert (Hpos : 0 < 2 ^ (lb + 1)) by (apply Z.pow_pos_nonneg; lia).
    unfold Qle, Qdiv, Qmult, Qinv, inject_Z. simpl.
    replace (Z.succ lb) with (lb + 1) in Hlb by lia.
    destruct (2 ^ (lb + 1)) as [|p|p] eqn:Hp; try lia. simpl.
    nia.
Qed.

Lemma exponentOf_lt (x : Q) : (0 < x)%Q -> (x < pow2 (exponentOf x + 1))%Q.
Proof.
  intros Hx. unfold exponentOf.
  set (a := Qnum x). set (b := Qden x).
  set (la := Z.log2 a). set (lb := Z.log2 (Zpos b)).
  destruct (Qle_bool (pow2 (la - lb)) x) eqn:Hb.
  - assert (Ha : 0 < a).
    { destruct x as [p q]. unfold Qlt in Hx. simpl in *. subst a. simpl. lia. }
    destruct (Z.log2_spec a Ha) as [_ Hla].
    destruct (Z.log2_spec (Zpos b) ltac:(lia)) as [Hlb _].
    fold la in Hla. fold lb in Hlb.
    assert (Hla0 : 0 <= la) by apply Z.log2_nonneg.
    assert (Hlb0 : 0 <= lb) by apply Z.log2_nonneg.
    replace (la - lb + 1) with ((la + 1) + - lb) by lia.
    rewrite pow2_plus. unfold pow2 at 2. rewrite Qpower_opp.
    fold (pow2 lb).
    rewrite <- (pow2_Z (la + 1)) by lia. rewrite <- (pow2_Z lb) by lia.
    rewrite (Qmake_as_quotient x). fold a b.
    assert (Hpos : 0 < 2 ^ lb) by (apply Z.pow_pos_nonneg; lia).
    unfold Qlt, Qdiv, Qmult, Qinv, inject_Z. simpl.
    replace (Z.succ la) with (la + 1) in Hla by lia.
    destruct (2 ^ lb) as [|p|p] eqn:Hp; try lia. simpl.
    nia.
  - replace (la - lb - 1 + 1) with (la - lb) by lia.
    apply Qnot_le_lt. intros H. apply Qle_bool_iff in H. congruence.
Qed.

Lemma inject_Z_pred (N : Z) : (inject_Z (N - 1) == inject_Z N - 1)%Q.
Proof. unfold Z.sub. rewrite inject_Z_plus, inject_Z_opp. reflexivity. Qed.

Lemma roundHalfEven_nonneg (y : Q) : (0 <= y)%Q -> 0 <= roundHalfEven y.
Proof.
  intros Hy. unfold roundHalfEven.
  assert (H : 0 <= Qfloor y).
  { change 0 with (Qfloor 0). now apply Qfloor_resp_le. }
  destruct (Qcompare _ _); [destruct (Z.even _)| |]; lia.
Qed.

Lemma roundHalfEven_below (y : Q) (N : Z) :
  (y < inject_Z N - (1 # 2))%Q -> roundHalfEven y <= N - 1.
Proof.
  intros Hy. unfold roundHalfEven.
  pose proof (Qfloor_le y) as Hfl.
  assert (Hf : Qfloor y <= N - 1).
  { assert (H : (inject_Z (Qfloor y) < inject_Z N)%Q) by lra.
    rewrite <- Zlt_Qlt in H. lia. }
  destruct (Z.eq_dec (Qfloor y) (N - 1)) as [E|E].
  - assert (Hq : (inject_Z (Qfloor y) == inject_Z N - 1)%Q).
    { rewrite E. apply inject_Z_pred. }
    assert (Hlt : Qcompare (y - inject_Z (Qfloor y)) (1 # 2) = Lt).
    { apply (proj1 (Qlt_alt _ _)). rewrite Hq. lra. }
    rewrite Hlt. lia.
  - destruct (Qcompare _ _); [destruct (Z.even _)| |]; lia.
Qed.

(** The floor of the double product of a draw and a length is an index
    below the length: the product of a double below 1 and an integer [n]
    never rounds up to [n]. *)
Lemma floor_multiply_in_range (r : Q) (n : Z) :
  (0 <= r)%Q -> (r <= 1 - pow2 (-53))%Q -> 0 < n < 2 ^ 53 ->
  0 <= floor (multiply r (inject_Z n)) < n.
Proof.
  intros Hr0 Hr1 Hn. unfold floor, multiply.
  assert (Hnq : (0 < inject_Z n)%Q) by (rewrite Zlt_Qlt in Hn; apply Hn).
  assert (Hn1 : (1 <= inject_Z n)%Q).
  { change 1%Q with (inject_Z 1). rewrite <- Zle_Qle. lia. }
  set (x := (r * inject_Z n)%Q).
  assert (Hx0 : (0 <= x)%Q) by (apply Qmult_le_0_compat; lra).
  pose proof (pow2_pos (-53)) as H53.
  assert (Hgap : (inject_Z n * pow2 (-53) <= inject_Z n - x)%Q).
  { unfold x.
    assert (H : (0 <= (1 - pow2 (-53) - r) * inject_Z n)%Q)
      by (apply Qmult_le_0_compat; lra).
    lra. }
  assert (Hxn : (x < inject_Z n)%Q).
  { assert (H : (0 < inject_Z n * pow2 (-53))%Q) by (apply Qmult_lt_0_compat; lra).
    lra. }
  unfold toDouble. destruct (Qcompare x 0) eqn:C.
  - change (Qfloor 0) with 0. lia.
  - apply (proj2 (Qlt_alt _ _)) in C. lra.
  - apply (proj2 (Qgt_alt _ _)) in C. unfold nearestDouble.
    set (e := Z.max (exponentOf x) (-1022)).
    set (u := pow2 (e - 52)).
    assert (Hu : (0 < u)%Q) by apply pow2_pos.
    assert (He : e <= 52).
    { subst e. apply Z.max_lub; [|lia].
      assert (H : (pow2 (exponentOf x) < pow2 53)%Q).
      { eapply Qle_lt_trans; [apply exponentOf_le; exact C|].
        eapply Qlt_trans; [exact Hxn|]. rewrite <- pow2_Z by lia.
        rewrite <- Zlt_Qlt. lia. }
      apply pow2_lt_inv in H. lia. }
    assert (Hhalf : (u * (1 # 2) < inject_Z n * pow2 (-53))%Q).
    { assert (Hu2 : (u * (1 # 2) == pow2 e * pow2 (-53))%Q).
      { unfold u. replace (e - 52) with (e + -53 + 1) by lia.
        rewrite !pow2_plus. change (pow2 1) with 2%Q. ring. }
      rewrite Hu2. apply Qmult_lt_compat_r; [exact H53|].
      subst e. destruct (Z.max_spec (exponentOf x) (-1022)) as [[_ ->]|[_ ->]].
      - eapply Qlt_le_trans; [|exact Hn1]. change 1%Q with (pow2 0). now apply pow2_lt.
      - eapply Qle_lt_trans; [apply exponentOf_le; exact C|exact Hxn]. }
    set (N := n * 2 ^ (52 - e)).
    assert (HN : (inject_Z N * u == inject_Z n)%Q).
    { unfold N, u. rewrite inject_Z_mult, pow2_Z by lia.
      rewrite <- Qmult_assoc, <- pow2_plus.
      replace (52 - e + (e - 52)) with 0 by lia. change (pow2 0) with 1%Q. ring. }
    set (M := roundHalfEven (x / u)).
    assert (HM0 : 0 <= M).
    { apply roundHalfEven_nonneg. apply Qle_shift_div_l; [exact Hu|lra]. }
    assert (HM1 : M <= N - 1).
    { apply roundHalfEven_below. apply Qlt_shift_div_r; [exact Hu|].
      assert (H : ((inject_Z N - (1 # 2)) * u == inject_Z n - u * (1 # 2))%Q).
      { rewrite <- HN. ring. }
      rewrite H. lra. }
    assert (Hres0 : (0 <= inject_Z M * u)%Q).
    { apply Qmult_le_0_compat; [|lra]. change 0%Q with (inject_Z 0).
      now rewrite <- Zle_Qle. }
    assert (Hres1 : (inject_Z M * u < inject_Z n)%Q).
    { assert (H : (inject_Z M * u <= inject_Z (N - 1) * u)%Q).
      { apply Qmult_le_compat_r; [|lra]. now rewrite <- Zle_Qle. }
      rewrite inject_Z_pred in H.
      assert (H' : ((inject_Z N - 1) * u == inject_Z n - u)%Q).
      { rewrite <- HN. ring. }
      rewrite H' in H. lra. }
    split.
    + change 0 with (Qfloor 0). now apply Qfloor_resp_le.
    + pose proof (Qfloor_le (inject_Z M * u)) as Hfl.
      assert (H : (inject_Z (Qfloor (inject_Z M * u)) < inject_Z n)%Q) by lra.
      now rewrite <- Zlt_Qlt in H.
Qed.

(** The rounding at work: one tenth and one third as doubles, and a
    product that the rounding lifts to the next integer. *)
Example toDouble_samples :
  Qred (toDouble (1 # 10)) = (3602879701896397 # 36028797018963968)%Q /\
  Qred (toDouble (1 # 3)) = (6004799503160661 # 18014398509481984)%Q /\
  Qred (toDouble (3 # 1)) = (3 # 1)%Q /\
  floor ((2573485501354569 # 4503599627370496) * 7) = 3 /\
  floor (multiply (2573485501354569 # 4503599627370496) 7) = 4.
Proof. repeat split; vm_compute; reflexivity. Qed.

Lemma random_unfold (w : World) (s : State) :
  Countries.random w s =
  (Return (at_index (this_names s)
             (floor (multiply (mathRandom w)
                       (inject_Z (Z.of_nat (length (this_names s))))))), s).
Proof. reflexivity. Qed.

(** On an empty name index [random] returns [undefined]; it does not throw. *)
Lemma random_empty_returns :
  ~ (forall (w : World) (s : State),
        this_names s = [] -> exists e, fst (Countries.random w s) = Throw e).
Proof.
  intros H. destruct (H offline (loaded []) eq_refl) as [e He]. discriminate He.
Qed.

(** C8, amended.  [random] never throws and changes nothing.  It returns
    the name at position [floor p], where [p] is the double product of the
    draw of [Math.random()] and the length of the index.  On an empty index
    that is [undefined].  For a draw in [[0,1)], which as a double is at
    most [1 - 2^(-53)], and a non-empty index (of fewer than [2^53]
    names), [floor p] is a position of the index, so a name of the index is
    returned; position [i] is the one chosen exactly when
    [i <= p < i + 1]. *)
Theorem random_selects_by_floor (w : World) (s : State) :
  let n := Z.of_nat (length (this_names s)) in
  let p := multiply (mathRandom w) (inject_Z n) in
  snd (Countries.random w s) = s /\
  (forall e, fst (Countries.random w s) <> Throw e) /\
  (this_names s = [] -> fst (Countries.random w s) = Return None) /\
  ((0 <= mathRandom w)%Q -> (mathRandom w <= 1 - pow2 (-53))%Q ->
   this_names s <> [] -> n < 2 ^ 53 ->
   exists i picked,
     0 <= i < n /\ i = floor p /\
     nth_error (this_names s) (Z.to_nat i) = Some picked /\
     In picked (this_names s) /\
     fst (Countries.random w s) = Return (Some picked)) /\
  (forall i picked,
     0 <= i -> nth_error (this_names s) (Z.to_nat i) = Some picked ->
     ((inject_Z i <= p)%Q /\ (p < inject_Z (i + 1))%Q <-> floor p = i) /\
     (floor p = i -> fst (Countries.random w s) = Return (Some picked))).
Proof.
  intros n p. rewrite random_unfold. cbn [fst snd].
  fold n. fold p.
  split; [reflexivity|]. split; [discriminate|]. split.
  { intros E. rewrite E. unfold at_index.
    match goal with |- context [if ?b then _ else _] => destruct b end;
      [reflexivity|].
    match goal with |- context [nth_error [] ?k] => destruct k end; reflexivity. }
  split.
  - intros H0 H1 Hne Hbig.
    assert (Hn : 0 < n).
    { subst n. destruct (this_names s); [congruence|simpl; lia]. }
    destruct (floor_multiply_in_range (mathRandom w) n H0 H1 (conj Hn Hbig))
      as [Hlo Hhi].
    fold p in Hlo, Hhi.
    destruct (nth_error (this_names s) (Z.to_nat (floor p))) as [picked|] eqn:Hnth.
    + exists (floor p), picked.
      split; [lia|]. split; [reflexivity|]. split; [exact Hnth|].
      split; [eapply nth_error_In; exact Hnth|].
      unfold at_index. destruct (Z.ltb_spec (floor p) 0); [lia|].
      now rewrite Hnth.
    + apply nth_error_None in Hnth. subst n. lia.
  - intros i picked Hi Hnth. split.
    + split.
      * intros [Hlo Hhi]. now apply floor_unique.
      * intros <-. apply floor_bounds.
    + intros ->. unfold at_index. destruct (Z.ltb_spec i 0); [lia|].
      now rewrite Hnth.
Qed.

Lemma random_selects_by_floor_witness :
  let w := {| nowAtCheck := 0; nowAtSave := 0; fetch := fun _ => Throw NetworkError;
              getImageStrings := noImages; mathRandom := (3 # 4)%Q;
              cacheDir := sampleCacheDir; numberToString := fun _ => "";
              toLocaleString := stringify; flagUrls := fun _ => None |} in
  exists i picked,
    0 <= i < 3 /\ In picked ["Francophonie"; "France"; "Chad"] /\
    fst (Countries.random w (loaded [francophonie; france; bare "Chad"]))
    = Return (Some picked).
Proof.
  intros w.
  assert (H0 : (0 <= mathRandom w)%Q) by (vm_compute; discriminate).
  assert (H1 : (mathRandom w <= 1 - pow2 (-53))%Q) by (vm_compute; discriminate).
  destruct (random_selects_by_floor w (loaded [francophonie; france; bare "Chad"]))
    as (_ & _ & _ & H & _).
  destruct (H H0 H1 ltac:(discriminate) ltac:(reflexivity))
    as (i & picked & Hi & _ & _ & Hin & Hret).
  exists i, picked. split; [exact Hi|]. split; [exact Hin | exact Hret].
Defined.

(** A draw whose exact product with the length is below 4 and whose double
    product is 4: the fifth of seven names is returned. *)
Example random_rounded_product :
  let w := {| nowAtCheck := 0; nowAtSave := 0; fetch := fun _ => Throw NetworkError;
              getImageStrings := noImages;
              mathRandom := (2573485501354569 # 4503599627370496)%Q;
              cacheDir := sampleCacheDir; numberToString := fun _ => "";
              toLocaleString := stringify; flagUrls := fun _ => None |} in
  fst (Countries.random w
         (loaded (map bare ["n0"; "n1"; "n2"; "n3"; "n4"; "n5"; "n6"])))
  = Return (Some "n4").
Proof. vm_compute. reflexivity. Qed.

(* ------------------------------------------------------------------ *)
(** ** Flag-art generation *)

(** C9.  [generateFlagImgs] of [src/countries.ts] reads [flags.png]
    unguarded: a country without a flag reference makes the whole
    generation throw, before any image is requested and without reaching
    the countries after it; a country that has only the alternate format
    throws as well, as there is no fallback; and [sync] with flag art
    throws with it. *)
Theorem generateFlagImgs_needs_png :
  let w := world 0 (answers [bare "Atlantis"; france]) oneLine in
  let s := initial emptyCache in
  Countries.generateFlagImgs w [france] None s
  = (Return [{| countryName := "France";
                flagString := ["https://flagcdn.com/w320/fr.jpg"] |}],
     logged [ImageRequest "https://flagcdn.com/w320/fr.jpg";
             LoggerProgress 1 1 None "Generating a flag for France"] s) /\
  Countries.generateFlagImgs w [bare "Atlantis"; france] None s = (Throw TypeError, s) /\
  Countries.generateFlagImgs w [vectorOnly] None s = (Throw TypeError, s) /\
  fst (Countries.sync w true true s) = Throw TypeError.
Proof. repeat (split; [reflexivity|]). reflexivity. Qed.

Lemma flagUrlOf_no_flags (c : Country) : flags c = None -> flagUrlOf c = None.
Proof. unfold flagUrlOf. intros ->. reflexivity. Qed.

Lemma orElse_truthy (a b : option string) : truthy a = true -> orElse a b = a.
Proof. unfold orElse. now intros ->. Qed.

Lemma orElse_falsy (a b : option string) : truthy a = false -> orElse a b = b.
Proof. unfold orElse. now intros ->. Qed.

Lemma truthy_nonempty (u : string) : u <> "" -> truthy (Some u) = true.
Proof. intros H. simpl. apply String.eqb_neq in H. now rewrite H. Qed.

Lemma flagUrlOf_png (c : Country) (f : Flags) (u : string) :
  flags c = Some f -> png f = Some u -> u <> "" -> u <> "N/A" -> flagUrlOf c = Some u.
Proof.
  unfold flagUrlOf. intros -> Hp Hne Hna. cbn [chain]. rewrite Hp.
  rewrite !(orElse_truthy (Some u)) by now apply truthy_nonempty.
  cbn [coalesce]. destruct (String.eqb_spec u "N/A"); [contradiction|reflexivity].
Qed.

Lemma flagUrlOf_svg (c : Country) (f : Flags) (u : string) :
  flags c = Some f -> truthy (png f) = false -> svg f = Some u ->
  u <> "" -> u <> "N/A" -> flagUrlOf c = Some u.
Proof.
  unfold flagUrlOf. intros -> Hp Hs Hne Hna. cbn [chain]. rewrite Hs.
  rewrite (orElse_falsy (png f)) by exact Hp.
  rewrite (orElse_truthy (Some u)) by now apply truthy_nonempty.
  cbn [coalesce]. destruct (String.eqb_spec u "N/A"); [contradiction|reflexivity].
Qed.

Lemma alt_generateFlagImgsFrom_returns (w : World) (render : string -> list string)
    (total : nat) (t : option string) (cs : list Country) :
  (forall url, getImageStrings w url = Return (render url)) ->
  forall (data : list FlagAscii) (i : nat) (s : State),
    fst (CountriesAlt.generateFlagImgsFrom w total t cs data i s)
    = Return (data ++ flat_map (flagArtOf render) cs).
Proof.
  intros Himg. induction cs as [|c cs IH]; intros data i s; simpl.
  - now rewrite app_nil_r.
  - unfold flagArtOf at 1, flagUrlOf.
    destruct (String.eqb _ "N/A"); simpl.
    + apply IH.
    + run. rewrite Himg. simpl. rewrite IH. now rewrite <- app_assoc.
Qed.

(** In the sibling text the loop is total: when the image converter
    answers, generation returns, whatever flag data the countries lack, and
    the table holds, in dataset order, one entry for each country that has
    a flag URL. *)
Lemma alt_generateFlagImgs_skips (w : World) (render : string -> list string)
    (t : option string) (cs : list Country) (s : State) :
  (forall url, getImageStrings w url = Return (render url)) ->
  fst (CountriesAlt.generateFlagImgs w cs t s) = Return (flat_map (flagArtOf render) cs).
Proof.
  intros Himg. unfold CountriesAlt.generateFlagImgs.
  now rewrite (alt_generateFlagImgsFrom_returns w render).
Qed.

Example alt_generateFlagImgs_sample :
  CountriesAlt.generateFlagImgs (world 0 (answers []) oneLine)
    [bare "Atlantis"; vectorOnly; france] None (initial emptyCache)
  = (Return [{| countryName := "Nepal"; flagString := ["https://flagcdn.com/np.svg"] |};
             {| countryName := "France";
                flagString := ["https://flagcdn.com/w320/fr.png"] |}],
     logged [ImageRequest "https://flagcdn.com/np.svg";
             LoggerProgress 1 3 None "Generating a flag for Nepal";
             ImageRequest "https://flagcdn.com/w320/fr.png";
             LoggerProgress 2 3 None "Generating a flag for France"]
            (initial emptyCache)).
Proof. reflexivity. Qed.

(* ------------------------------------------------------------------ *)
(** ** More on the look-up by name *)

Lemma lowerChar_idempotent (c : ascii) : lowerChar (lowerChar c) = lowerChar c.
Proof. destruct c as [[] [] [] [] [] [] [] []]; reflexivity. Qed.

Lemma toLowerCase_idempotent (s : string) : toLowerCase (toLowerCase s) = toLowerCase s.
Proof.
  induction s as [|c s IH]; simpl; [reflexivity|].
  now rewrite lowerChar_idempotent, IH.
Qed.

Lemma find_some_In {A : Type} (p : A -> bool) (xs : list A) (c : A) :
  List.find p xs = Some c -> In c xs /\ p c = true.
Proof. apply List.find_some. Qed.

(** [find] reads the object and changes nothing.  What it returns is a
    country of the dataset whose lower-cased name includes the lower-cased
    query; it throws exactly when no country of the dataset has such a
    name.  As for C5, the lower-casing is a parameter. *)
Theorem find_returns_member (lower : string -> string) (s : State) (q : string) :
  snd (Countries.findBy lower q s) = s /\
  (forall c, fst (Countries.findBy lower q s) = Return c ->
     In c (this_list s) /\ nameIncludesBy lower (lower q) c = true) /\
  ((exists e, fst (Countries.findBy lower q s) = Throw e) <->
   (forall c, In c (this_list s) -> nameIncludesBy lower (lower q) c = false)).
Proof.
  rewrite findBy_unfold. cbn [fst snd]. split; [reflexivity|].
  destruct (List.find (nameIsBy lower (lower q)) (this_list s)) as [c0|] eqn:Hexact.
  - apply find_some_In in Hexact as [Hin Hc0]. split.
    + intros c [= <-]. split; [exact Hin|now apply nameIsBy_nameIncludesBy].
    + split.
      * intros [e He]. discriminate He.
      * intros Hno. apply nameIsBy_nameIncludesBy in Hc0.
        rewrite (Hno c0 Hin) in Hc0. discriminate Hc0.
  - destruct (List.find (nameIncludesBy lower (lower q)) (this_list s))
      as [c1|] eqn:Hfuzzy.
    + apply find_some_In in Hfuzzy as [Hin Hc1]. split.
      * intros c [= <-]. now split.
      * split.
        -- intros [e He]. discriminate He.
        -- intros Hno. rewrite (Hno c1 Hin) in Hc1. discriminate Hc1.
    + split; [discriminate|]. split.
      * intros _. now apply find_none_iff.
      * intros _. eauto.
Qed.

Lemma find_returns_member_witness :
  In france (this_list (loaded [francophonie; france])) /\
  nameIncludesBy toLowerCase (toLowerCase "FRANCE") france = true.
Proof.
  apply (proj1 (proj2 (find_returns_member toLowerCase (loaded [francophonie; france])
                         "FRANCE")) france eq_refl).
Defined.

(** The letter case of the query is immaterial: two queries that agree up
    to letter case get the same answer, and lower-casing the query before
    the call changes nothing. *)
Theorem find_ignores_query_case (s : State) (q q' : string) :
  toLowerCase q = toLowerCase q' ->
  Countries.find q s = Countries.find q' s /\
  Countries.find (toLowerCase q) s = Countries.find q s.
Proof.
  intros H. rewrite !find_unfold, toLowerCase_idempotent, H. split; reflexivity.
Qed.

Lemma find_ignores_query_case_witness :
  Countries.find "fRaNcE" (loaded [francophonie; france])
  = Countries.find "France" (loaded [francophonie; france]).
Proof.
  apply (proj1 (find_ignores_query_case (loaded [francophonie; france])
                  "fRaNcE" "France" eq_refl)).
Defined.

(* ------------------------------------------------------------------ *)
(** ** Filtering by region *)

Lemma filter_sublist {A : Type} (p : A -> bool) (xs : list A) :
  sublist (List.filter p xs) xs.
Proof.
  induction xs as [|x xs IH]; simpl; [constructor|].
  destruct (p x); now constructor.
Qed.

(** [filterByRegion] never throws and changes nothing.  It returns, in
    dataset order, exactly the countries whose region is the given text,
    letter for letter; a country without a region is never returned. *)
Theorem filterByRegion_selects (s : State) (r : string) :
  exists selected,
    Countries.filterByRegion r s = (Return selected, s) /\
    sublist selected (this_list s) /\
    (forall c, In c selected <-> In c (this_list s) /\ region c = Some r).
Proof.
  eexists. split; [reflexivity|]. split; [apply filter_sublist|].
  intros c. rewrite List.filter_In. split; intros [Hin Hr]; split; auto.
  - destruct (region c) as [r'|]; [|discriminate].
    apply String.eqb_eq in Hr. now subst.
  - rewrite Hr. apply String.eqb_refl.
Qed.

Example filterByRegion_case_sensitive :
  fst (Countries.filterByRegion "Europe" (loaded [francophonie; france; vectorOnly]))
  = Return [france] /\
  fst (Countries.filterByRegion "europe" (loaded [francophonie; france; vectorOnly]))
  = Return [].
Proof. split; reflexivity. Qed.

(* ------------------------------------------------------------------ *)
(** ** More on synchronisation *)

(** The timestamp text that [sync] writes reads back as the same number. *)
Lemma Number_stringify (z : Z) : Number (stringify z) = Num z.
Proof.
  unfold Number, stringify. rewrite NilZero.isi.
  - now rewrite DecimalZ.of_to.
  - destruct z; simpl; try discriminate.
    intros [= H]. now apply (Unsigned.to_uint_nonnil p).
  - destruct z; simpl; try discriminate.
    intros [= H]. now apply (Unsigned.to_uint_nonnil p).
Qed.

Lemma stringify_truthy (z : Z) : truthy (Some (stringify z)) = true.
Proof.
  simpl. destruct (String.eqb_spec (stringify z) "") as [E|]; [|reflexivity].
  pose proof (Number_stringify z) as H. rewrite E in H. discriminate H.
Qed.

Lemma force_of_fresh (b force : bool) : b || force = false -> b = false /\ force = false.
Proof. destruct b, force; simpl; auto; discriminate. Qed.

(** When the fetch is rejected, or the body of the response does not
    parse, [sync] throws that error after the alert and the fetch, and
    the object and the cache are left as they were: a failed
    synchronisation never damages the cached dataset. *)
Theorem sync_failure_keeps_cache (w : World) (s : State) (force flagAscii : bool)
    (e : Error) :
  Countries.shouldSync w s || force = true ->
  fetch w syncUrl = Throw e \/
    (exists r, fetch w syncUrl = Return r /\ json r = Throw e) ->
  let s' := snd (Countries.sync w force flagAscii s) in
  fst (Countries.sync w force flagAscii s) = Throw e /\
  cache s' = cache s /\
  this_list s' = this_list s /\ this_names s' = this_names s /\
  this_flags s' = this_flags s /\
  trace s' = trace s ++ fetchEvents force.
Proof.
  intros Hs Hfail. rewrite (sync_stale w s force flagAscii Hs).
  destruct Hfail as [Hf | (r & Hf & Hj)].
  - rewrite Hf. repeat split.
  - rewrite Hf, Hj. repeat split.
Qed.

Lemma sync_failure_keeps_cache_witness :
  let w := world 1000 (Return badGateway) noImages in
  let s := initial (cached [france] "900") in
  cache (snd (Countries.sync w true true s)) = cached [france] "900".
Proof.
  intros w s.
  apply (sync_failure_keeps_cache w s true true SyntaxError eq_refl).
  right. exists badGateway. split; reflexivity.
Defined.

(** Whenever [sync] returns, on either path, what it returns is the list
    the object now serves, the name index holds the common names of that
    list in the same order, and the cache holds that same list. *)
Theorem sync_names_index (w : World) (s : State) (force flagAscii : bool)
    (l : list Country) :
  fst (Countries.sync w force flagAscii s) = Return l ->
  let s' := snd (Countries.sync w force flagAscii s) in
  this_list s' = l /\
  this_names s' = map (fun c => common (name c)) l /\
  countriesJson (cache s') = Some l.
Proof.
  destruct (Countries.shouldSync w s || force) eqn:Hs.
  - rewrite (sync_stale w s force flagAscii Hs).
    destruct (fetch w syncUrl) as [r|e]; [|discriminate].
    destruct (json r) as [cs|e]; [|discriminate].
    destruct flagAscii.
    + pose proof (generateFlagImgsFrom_onlyLogs w (length cs) (Some flagArtTitle)
                    cs [] O (persisted w force cs s)) as (Hl & _ & _ & Hc & _).
      fold (Countries.generateFlagImgs w cs (Some flagArtTitle)) in Hl, Hc.
      destruct (Countries.generateFlagImgs w cs _ _) as [[fl|e] s2]; [|discriminate].
      simpl in *. intros [= <-]. rewrite Hc. simpl. now rewrite Hl.
    + simpl. intros [= <-]. repeat split.
  - apply force_of_fresh in Hs as [Hs ->].
    destruct (sync_fresh w s flagAscii Hs) as (cs & E & ->).
    simpl. intros [= <-]. repeat split. exact E.
Qed.

Lemma sync_names_index_witness :
  this_names (snd (Countries.sync (world 5 (answers [francophonie; france]) noImages)
                     false false (initial emptyCache)))
  = ["Francophonie"; "France"].
Proof.
  apply (sync_names_index (world 5 (answers [francophonie; france]) noImages)
           (initial emptyCache) false false [francophonie; france] eq_refl).
Defined.

(** A [sync] without [force] on a cache that is not stale touches neither
    the network nor the cache and logs nothing, whether or not flag art
    was asked for: it returns the cached dataset and loads the cached
    flag-art table, or the empty table when there is none. *)
Theorem sync_serves_fresh_cache (w : World) (s : State) (flagAscii : bool) :
  Countries.shouldSync w s = false ->
  exists cs,
    countriesJson (cache s) = Some cs /\
    let s' := snd (Countries.sync w false flagAscii s) in
    fst (Countries.sync w false flagAscii s) = Return cs /\
    trace s' = trace s /\ cache s' = cache s /\
    this_list s' = cs /\
    this_flags s' = match flagsJson (cache s) with
                    | Some table => table
                    | None => []
                    end.
Proof.
  intros Hs. destruct (sync_fresh w s flagAscii Hs) as (cs & E & ->).
  exists cs. split; [exact E|]. simpl. repeat split.
Qed.

Lemma sync_serves_fresh_cache_witness :
  let w := world 1000 (Throw NetworkError) noImages in
  let s := initial (cached [france] "900") in
  fst (Countries.sync w false true s) = Return [france] /\
  trace (snd (Countries.sync w false true s)) = [].
Proof.
  intros w s.
  destruct (sync_serves_fresh_cache w s true eq_refl) as (cs & E & H1 & H2 & _).
  injection E as <-. split; [exact H1 | exact H2].
Defined.

(** Two synchronisations in a row.  After a stale-or-forced [sync] that
    returned, the cache is stale again exactly when more than seven times
    23 hours lie between the time the timestamp was written and the time
    of the next check; until then a [sync] without [force] returns the
    same dataset without a fetch. *)
Theorem sync_then_sync (w1 w2 : World) (s : State) (force flagAscii flagAscii2 : bool)
    (l : list Country) :
  Countries.shouldSync w1 s || force = true ->
  fst (Countries.sync w1 force flagAscii s) = Return l ->
  let s1 := snd (Countries.sync w1 force flagAscii s) in
  (Countries.shouldSync w2 s1 = true <->
   nowAtCheck w2 - nowAtSave w1 > environment.syncInterval * (23 * hour)) /\
  (nowAtCheck w2 - nowAtSave w1 <= environment.syncInterval * (23 * hour) ->
   fst (Countries.sync w2 false flagAscii2 s1) = Return l /\
   trace (snd (Countries.sync w2 false flagAscii2 s1)) = trace s1 /\
   cache (snd (Countries.sync w2 false flagAscii2 s1)) = cache s1).
Proof.
  intros Hs Hret s1.
  assert (Hcache : countriesJson (cache s1) = Some l /\
                   lastSyncedTxt (cache s1) = Some (stringify (nowAtSave w1))).
  { subst s1. revert Hret. rewrite (sync_stale w1 s force flagAscii Hs).
    destruct (fetch w1 syncUrl) as [r|e]; [|discriminate].
    destruct (json r) as [cs|e]; [|discriminate].
    destruct flagAscii.
    - pose proof (generateFlagImgsFrom_onlyLogs w1 (length cs) (Some flagArtTitle)
                    cs [] O (persisted w1 force cs s)) as (Hl & _ & _ & Hc & _).
      fold (Countries.generateFlagImgs w1 cs (Some flagArtTitle)) in Hl, Hc.
      destruct (Countries.generateFlagImgs w1 cs _ _) as [[fl|e] s2]; [|discriminate].
      simpl in *. intros [= <-]. rewrite Hc, Hl. simpl. now split.
    - simpl. intros [= <-]. now split. }
  destruct Hcache as [Hds Hts].
  assert (Hiff : Countries.shouldSync w2 s1 = true <->
                 nowAtCheck w2 - nowAtSave w1 > environment.syncInterval * (23 * hour)).
  { unfold Countries.shouldSync, existsCountriesJson. rewrite Hds, Hts.
    rewrite stringify_truthy. cbn [NumberOf negb orb]. rewrite Number_stringify.
    unfold olderThan, hour, environment.syncInterval. rewrite Z.ltb_lt. lia. }
  split; [exact Hiff|].
  intros Hclose.
  assert (Hfresh : Countries.shouldSync w2 s1 = false).
  { destruct (Countries.shouldSync w2 s1); [|reflexivity].
    destruct Hiff as [Hiff _]. specialize (Hiff eq_refl). lia. }
  destruct (sync_fresh w2 s1 flagAscii2 Hfresh) as (cs & E & ->).
  rewrite Hds in E. injection E as <-. repeat split.
Qed.

Lemma sync_then_sync_witness :
  let w1 := world 1000 (answers [france]) noImages in
  let w2 := world (1000 + 6 * 24 * hour) (Throw NetworkError) noImages in
  fst (Countries.sync w2 false false
         (snd (Countries.sync w1 false false (initial emptyCache))))
  = Return [france].
Proof.
  intros w1 w2.
  destruct (sync_then_sync w1 w2 (initial emptyCache) false false false [france]
              eq_refl eq_refl) as [_ H].
  apply H. vm_compute. discriminate.
Defined.

(** The freshness check on the timestamps the program writes.  The cache
    is stale when the dataset is absent, and when the timestamp is absent
    or empty.  With a dataset and the timestamp that [sync] wrote at time
    [t], it is stale exactly when more than seven times 23 hours have
    passed since [t].  Times are the non-negative integers below [2^53]
    that [Date.now()] gives. *)
Theorem shouldSync_on_written_timestamp (w : World) (s : State) :
  (countriesJson (cache s) = None -> Countries.shouldSync w s = true) /\
  (lastSyncedTxt (cache s) = None \/ lastSyncedTxt (cache s) = Some "" ->
   Countries.shouldSync w s = true) /\
  (forall cs t,
      countriesJson (cache s) = Some cs ->
      lastSyncedTxt (cache s) = Some (stringify t) ->
      0 <= t < 2 ^ 53 -> 0 <= nowAtCheck w < 2 ^ 53 ->
      (Countries.shouldSync w s = true <->
       nowAtCheck w - t > environment.syncInterval * (23 * hour))).
Proof.
  unfold Countries.shouldSync, existsCountriesJson. split; [|split].
  - intros ->. reflexivity.
  - intros [-> | ->]; simpl; now rewrite orb_true_r.
  - intros cs t -> -> _ _. rewrite stringify_truthy. cbn [NumberOf negb orb].
    rewrite Number_stringify. unfold olderThan, hour, environment.syncInterval.
    rewrite Z.ltb_lt. lia.
Qed.

Lemma shouldSync_on_written_timestamp_witness :
  Countries.shouldSync (world (7 * 24 * hour) (answers []) noImages)
    (initial (cached [france] "1000")) = true.
Proof.
  apply (proj2 (proj2 (shouldSync_on_written_timestamp
                         (world (7 * 24 * hour) (answers []) noImages)
                         (initial (cached [france] "1000"))))
           [france] 1000 eq_refl eq_refl).
  - vm_compute. split; [discriminate|reflexivity].
  - vm_compute. split; [discriminate|reflexivity].
  - vm_compute. reflexivity.
Defined.

(** The same for the sibling text, whose bound is seven times seven
    days. *)
Theorem alt_shouldSync_on_written_timestamp (w : World) (s : State) :
  (countriesJson (cache s) = None -> CountriesAlt.shouldSync w s = true) /\
  (lastSyncedTxt (cache s) = None \/ lastSyncedTxt (cache s) = Some "" ->
   CountriesAlt.shouldSync w s = true) /\
  (forall cs t,
      countriesJson (cache s) = Some cs ->
      lastSyncedTxt (cache s) = Some (stringify t) ->
      0 <= t < 2 ^ 53 -> 0 <= nowAtCheck w < 2 ^ 53 ->
      (CountriesAlt.shouldSync w s = true <->
       nowAtCheck w - t > environment.syncInterval * (7 * (24 * hour)))).
Proof.
  unfold CountriesAlt.shouldSync, existsCountriesJson. split; [|split].
  - intros ->. reflexivity.
  - intros [-> | ->]; simpl; now rewrite orb_true_r.
  - intros cs t -> -> _ _. rewrite stringify_truthy. cbn [NumberOf negb orb].
    rewrite Number_stringify. unfold olderThan, hour, environment.syncInterval.
    rewrite Z.ltb_lt. lia.
Qed.

Lemma alt_shouldSync_on_written_timestamp_witness :
  CountriesAlt.shouldSync (world (50 * 24 * hour) (answers []) noImages)
    (initial (cached [france] "1000")) = true.
Proof.
  apply (proj2 (proj2 (alt_shouldSync_on_written_timestamp
                         (world (50 * 24 * hour) (answers []) noImages)
                         (initial (cached [france] "1000"))))
           [france] 1000 eq_refl eq_refl).
  - vm_compute. split; [discriminate|reflexivity].
  - vm_compute. split; [discriminate|reflexivity].
  - vm_compute. reflexivity.
Defined.

(* ------------------------------------------------------------------ *)
(** ** More on the look-up by capital *)

Lemma findWith_Some {A : Type} (p : A -> Outcome bool) (xs : list A) (c : A) :
  findWith p xs = Return (Some c) ->
  exists before after,
    xs = before ++ c :: after /\ p c = Return true /\
    Forall (fun x => p x = Return false) before.
Proof.
  induction xs as [|x xs IH]; simpl; [discriminate|].
  destruct (p x) as [[|]|e] eqn:Hx; [| |discriminate].
  - intros [= <-]. exists [], xs. repeat split; auto.
  - intros H. destruct (IH H) as (b & a & -> & Hc & Hb).
    exists (x :: b), a. repeat split; auto.
Qed.

Lemma findWith_None {A : Type} (p : A -> Outcome bool) (xs : list A) :
  findWith p xs = Return None <-> Forall (fun x => p x = Return false) xs.
Proof.
  induction xs as [|x xs IH]; simpl.
  - split; auto.
  - destruct (p x) as [[|]|e] eqn:Hx.
    + split; [discriminate|]. intros H. inversion H; congruence.
    + rewrite IH. split; [auto|]. intros H. now inversion H.
    + split; [discriminate|]. intros H. inversion H; congruence.
Qed.

Lemma findWith_Throw {A : Type} (p : A -> Outcome bool) (xs : list A) (e : Error) :
  findWith p xs = Throw e <->
  exists before c after,
    xs = before ++ c :: after /\ p c = Throw e /\
    Forall (fun x => p x = Return false) before.
Proof.
  induction xs as [|x xs IH]; simpl.
  - split; [discriminate|]. intros (b & c & a & E & _). destruct b; discriminate.
  - destruct (p x) as [[|]|e'] eqn:Hx.
    + split; [discriminate|].
      intros (b & c & a & E & Hc & Hb). destruct b as [|y b]; simpl in E.
      * injection E as -> _. congruence.
      * injection E as -> _. inversion Hb; congruence.
    + rewrite IH. split.
      * intros (b & c & a & -> & Hc & Hb). exists (x :: b), c, a. repeat split; auto.
      * intros (b & c & a & E & Hc & Hb). destruct b as [|y b]; simpl in E.
        -- injection E as -> _. congruence.
        -- injection E as -> ->. inversion Hb; subst. exists b, c, a. auto.
    + split.
      * intros [= ->]. exists [], x, xs. repeat split; auto.
      * intros (b & c & a & E & Hc & Hb). destruct b as [|y b]; simpl in E.
        -- injection E as -> _. congruence.
        -- injection E as -> _. inversion Hb; congruence.
Qed.

Lemma findByCapital_unfold_any (q : string) (s : State) :
  Countries.findByCapital q s =
  (match findWith (capitalCallback q) (this_list s) with
   | Return (Some c) => Return c
   | Return None => Throw (Thrown ("Could not find the country of capital: " +:+ q))
   | Throw e => Throw e
   end, s).
Proof.
  unfold Countries.findByCapital. run. fold (capitalCallback q).
  destruct (findWith (capitalCallback q) (this_list s)) as [[c|]|e]; reflexivity.
Qed.

Lemma findByCapitalBy_unfold (lower : string -> string) (q : string) (s : State) :
  Countries.findByCapitalBy lower q s =
  (match findWith (capitalCallbackBy lower q) (this_list s) with
   | Return (Some c) => Return c
   | Return None => Throw (Thrown ("Could not find the country of capital: " +:+ q))
   | Throw e => Throw e
   end, s).
Proof.
  unfold Countries.findByCapitalBy. run. fold (capitalCallbackBy lower q).
  destruct (findWith (capitalCallbackBy lower q) (this_list s)) as [[c|]|e];
    reflexivity.
Qed.

(** [findByCapital] is [findByCapitalBy] at the ASCII lower-casing. *)
Lemma findByCapital_findByCapitalBy (q : string) (s : State) :
  Countries.findByCapital q s = Countries.findByCapitalBy toLowerCase q s.
Proof. reflexivity. Qed.

Lemma capitalCallbackBy_true (lower : string -> string) (q : string) (c : Country) :
  capitalCallbackBy lower q c = Return true <->
  exists capitals entry,
    capital c = Some capitals /\ In entry capitals /\ lower entry = q.
Proof.
  unfold capitalCallbackBy. destruct (capital c) as [caps|]; simpl.
  - split.
    + intros [= H]. apply existsb_exists in H as (x & Hin & Hx).
      apply in_map_iff in Hin as (entry & <- & Hin).
      apply String.eqb_eq in Hx. exists caps, entry. auto.
    + intros (caps' & entry & [= <-] & Hin & <-). f_equal.
      apply existsb_exists. exists (lower entry). split.
      * now apply in_map.
      * apply String.eqb_refl.
  - split; [discriminate|]. intros (caps & entry & H & _). discriminate.
Qed.

Lemma capitalCallbackBy_false (lower : string -> string) (q : string) (c : Country) :
  capitalCallbackBy lower q c = Return false <->
  capital c <> None /\ hasCapitalBy lower q c = false.
Proof.
  unfold capitalCallbackBy, hasCapitalBy. destruct (capital c) as [caps|]; simpl.
  - split.
    + intros [= ->]. split; [discriminate|reflexivity].
    + intros [_ ->]. reflexivity.
  - split; [discriminate|]. intros [H _]. now contradiction H.
Qed.

Lemma capitalCallbackBy_Throw (lower : string -> string) (q : string) (c : Country)
    (e : Error) :
  capitalCallbackBy lower q c = Throw e <-> capital c = None /\ e = TypeError.
Proof.
  unfold capitalCallbackBy. destruct (capital c) as [caps|]; simpl.
  - split; [discriminate|]. intros [H _]. discriminate.
  - split.
    + intros [= <-]. auto.
    + intros [_ ->]. reflexivity.
Qed.

Lemma isAsciiUpper_lowerChar (c : ascii) : isAsciiUpper (lowerChar c) = false.
Proof. destruct c as [[] [] [] [] [] [] [] []]; reflexivity. Qed.

Lemma hasAsciiUpper_toLowerCase (s : string) : hasAsciiUpper (toLowerCase s) = false.
Proof.
  induction s as [|c s IH]; simpl; [reflexivity|].
  now rewrite isAsciiUpper_lowerChar, IH.
Qed.

(** [findByCapital] changes nothing.  What it returns is a country of the
    dataset one of whose capitals, lower-cased, is the query as given.  As
    no lower-cased string holds a letter from [A] to [Z], a query that
    holds one is never found, whatever the dataset holds.  The lower-casing
    is a parameter, as for C5; that its results hold no letter from [A] to
    [Z] is all the last part uses of it. *)
Theorem findByCapital_returns_lowercase_match (lower : string -> string) (s : State)
    (q : string) :
  snd (Countries.findByCapitalBy lower q s) = s /\
  (forall c, fst (Countries.findByCapitalBy lower q s) = Return c ->
     In c (this_list s) /\
     exists capitals entry,
       capital c = Some capitals /\ In entry capitals /\ lower entry = q) /\
  ((forall x, hasAsciiUpper (lower x) = false) ->
   hasAsciiUpper q = true ->
   forall c, fst (Countries.findByCapitalBy lower q s) <> Return c).
Proof.
  rewrite findByCapitalBy_unfold. cbn [fst snd].
  assert (Hret : forall c,
             match findWith (capitalCallbackBy lower q) (this_list s) with
             | Return (Some c0) => Return c0
             | Return None =>
                 Throw (Thrown ("Could not find the country of capital: " +:+ q))
             | Throw e => Throw e
             end = Return c ->
             In c (this_list s) /\
             exists capitals entry,
               capital c = Some capitals /\ In entry capitals /\ lower entry = q).
  { intros c. destruct (findWith _ _) as [[c0|]|e] eqn:Hf; try discriminate.
    intros [= <-]. apply findWith_Some in Hf as (b & a & E & Hc & _).
    apply capitalCallbackBy_true in Hc as (caps & entry & Hcaps & Hin & Hq).
    split; [rewrite E; apply in_elt|eauto]. }
  split; [reflexivity|]. split; [exact Hret|].
  intros Hlower Hup c Hc. apply Hret in Hc as (_ & caps & entry & _ & _ & Hq).
  rewrite <- Hq, Hlower in Hup. discriminate Hup.
Qed.

Lemma findByCapital_returns_lowercase_match_witness :
  fst (Countries.findByCapital "PARIS" (loaded [france; vectorOnly])) <> Return france.
Proof.
  rewrite findByCapital_findByCapitalBy.
  apply (proj2 (proj2 (findByCapital_returns_lowercase_match toLowerCase
                         (loaded [france; vectorOnly]) "PARIS"))
           hasAsciiUpper_toLowerCase eq_refl).
Defined.

(** The two ways [findByCapital] fails.  It throws a [TypeError] exactly
    when a country without a capital list comes before every match, and
    the "Could not find ..." text exactly when every country has a capital
    list and none matches.  A country without a capital list that comes
    after the first match does no harm.  The lower-casing is a parameter,
    as for C5. *)
Theorem findByCapital_failures (lower : string -> string) (s : State) (q : string) :
  (fst (Countries.findByCapitalBy lower q s) = Throw TypeError <->
   exists before c after,
     this_list s = before ++ c :: after /\ capital c = None /\
     Forall (fun x => capital x <> None /\ hasCapitalBy lower q x = false) before) /\
  (fst (Countries.findByCapitalBy lower q s)
     = Throw (Thrown ("Could not find the country of capital: " +:+ q)) <->
   Forall (fun x => capital x <> None /\ hasCapitalBy lower q x = false) (this_list s)) /\
  (forall e, fst (Countries.findByCapitalBy lower q s) = Throw e ->
     e = TypeError \/ e = Thrown ("Could not find the country of capital: " +:+ q)).
Proof.
  rewrite findByCapitalBy_unfold. cbn [fst].
  assert (Hfalse : forall l,
             Forall (fun x => capitalCallbackBy lower q x = Return false) l <->
             Forall (fun x => capital x <> None /\ hasCapitalBy lower q x = false) l).
  { intros l. split; apply List.Forall_impl; intros x; apply capitalCallbackBy_false. }
  destruct (findWith (capitalCallbackBy lower q) (this_list s)) as [[c0|]|e] eqn:Hf.
  - apply findWith_Some in Hf as (b & a & E & Hc & Hb).
    split; [|split].
    + split; [discriminate|].
      intros (b' & c & a' & E' & Hnone & Hb').
      exfalso. apply Hfalse in Hb'.
      assert (Hthrow : findWith (capitalCallbackBy lower q) (this_list s)
                       = Throw TypeError).
      { apply findWith_Throw. exists b', c, a'. repeat split; auto.
        now apply capitalCallbackBy_Throw. }
      assert (Hsome : findWith (capitalCallbackBy lower q) (this_list s)
                      = Return (Some c0)).
      { clear Hthrow E' Hb'. rewrite E. clear E.
        induction Hb as [|x b Hx _ IH]; simpl; [now rewrite Hc|now rewrite Hx]. }
      congruence.
    + split; [discriminate|]. intros Hall. exfalso. apply Hfalse in Hall.
      rewrite E in Hall. apply Forall_app in Hall as [_ Hall].
      inversion Hall; congruence.
    + discriminate.
  - split; [|split].
    + split; [discriminate|].
      intros (b' & c & a' & E' & Hnone & Hb'). exfalso.
      apply findWith_None in Hf. rewrite E' in Hf.
      apply Forall_app in Hf as [_ Hf]. inversion Hf as [|? ? Hc _]; subst.
      apply capitalCallbackBy_false in Hc as [Hc _]. contradiction.
    + split; [|reflexivity]. intros _. apply Hfalse. now apply findWith_None.
    + intros e [= <-]. now right.
  - pose proof Hf as Hf'. apply findWith_Throw in Hf' as (b & c & a & E & Hc & Hb).
    apply capitalCallbackBy_Throw in Hc as [Hnone ->].
    split; [|split].
    + split; [|reflexivity]. intros _. exists b, c, a. repeat split; auto.
      now apply Hfalse.
    + split; [discriminate|]. intros Hall. exfalso. rewrite E in Hall.
      apply Forall_app in Hall as [_ Hall]. inversion Hall as [|? ? [Hc _] _]; subst.
      contradiction.
    + intros e [= <-]. now left.
Qed.

Lemma findByCapital_failures_witness :
  fst (Countries.findByCapital "paris" (loaded [francophonie; france])) = Throw TypeError.
Proof.
  rewrite findByCapital_findByCapitalBy.
  apply (proj2 (proj1 (findByCapital_failures toLowerCase
                         (loaded [francophonie; france]) "paris"))).
  exists [], francophonie, [france]. repeat split. constructor.
Defined.

(** With a lower-casing that knows the letter, a capital outside ASCII is
    found by its lower-case form. *)
Example findByCapital_beyond_ascii :
  let norrland :=
    {| name := {| common := "Norrland" |}; capital := Some ["Ålesund"];
       region := None; subregion := None; population := None; currencies := None;
       languages := None; timezones := None; latlng := None; tld := None;
       flag := None; flags := None; capitalInfo := None |} in
  fst (Countries.findByCapitalBy lowerNordic "ålesund" (loaded [france; norrland]))
  = Return norrland.
Proof. reflexivity. Qed.

Example findByCapital_absent_after_match :
  fst (Countries.findByCapital "paris" (loaded [france; francophonie])) = Return france.
Proof. reflexivity. Qed.

(** [capitalOf] with a non-empty argument: when the look-up returns a
    country, the only effect is one [logger.capitalOf] with the capital as
    it was typed and the common name of that country; when the look-up
    throws, the error is passed on and nothing is logged. *)
Theorem capitalOf_reports (s : State) (q : string) :
  q <> "" ->
  (forall c, fst (Countries.findByCapital q s) = Return c ->
     Countries.capitalOf q s
     = (Return tt, logged [LoggerCapitalOf q (common (name c))] s)) /\
  (forall e, fst (Countries.findByCapital q s) = Throw e ->
     Countries.capitalOf q s = (Throw e, s)).
Proof.
  intros Hq. unfold Countries.capitalOf.
  apply String.eqb_neq in Hq. rewrite Hq.
  unfold bind. rewrite findByCapital_unfold_any. cbn [fst].
  destruct (findWith (capitalCallback q) (this_list s)) as [[c0|]|e0];
    (split; [intros c Hc|intros e He]); try discriminate;
    try (injection Hc as <-); try (injection He as <-); reflexivity.
Qed.

Lemma capitalOf_reports_witness :
  Countries.capitalOf "paris" (loaded [france])
  = (Return tt, logged [LoggerCapitalOf "paris" "France"] (loaded [france])).
Proof.
  apply (proj1 (capitalOf_reports (loaded [france]) "paris" ltac:(discriminate))
           france eq_refl).
Defined.

Example capitalOf_empty :
  Countries.capitalOf "" (loaded [francophonie])
  = (Return tt, logged [LoggerError "Must provide a capital name."] (loaded [francophonie])).
Proof. reflexivity. Qed.

(* ------------------------------------------------------------------ *)
(** ** More on flag-art generation *)

Lemma progressOf_app (a b : list Event) : progressOf (a ++ b) = progressOf a ++ progressOf b.
Proof.
  induction a as [|e a IH]; simpl; [reflexivity|].
  destruct e; simpl; rewrite ?IH; reflexivity.
Qed.

Lemma reports_S (total from count : nat) :
  (from + 1, total)%nat :: reports total (S from) count = reports total from (S count).
Proof. unfold reports. simpl. now replace (from + 1)%nat with (S from) by lia. Qed.

Lemma generateFlagImgsFrom_table (w : World) (render : string -> list string)
    (total : nat) (t : option string) (cs : list Country) :
  (forall url, getImageStrings w url = Return (render url)) ->
  Forall hasPng cs ->
  forall (data : list FlagAscii) (i : nat) (s : State),
  exists table,
    fst (Countries.generateFlagImgsFrom w total t cs data i s) = Return (data ++ table) /\
    Forall2 (jpgEntry render) cs table.
Proof.
  intros Himg Hall. induction Hall as [|c cs (f & p & Hf & Hp) _ IH]; intros data i s.
  - exists []. simpl. rewrite app_nil_r. split; [reflexivity|constructor].
  - simpl. run. rewrite Hf. simpl. rewrite Hp. simpl. rewrite Himg. simpl.
    match goal with
    | |- context [Countries.generateFlagImgsFrom w total t cs ?d ?j ?st] =>
        destruct (IH d j st) as (table & Ht & Hforall)
    end.
    exists ({| countryName := common (name c);
               flagString := render (replace ".png" ".jpg" p) |} :: table).
    split.
    + rewrite Ht. now rewrite <- app_assoc.
    + constructor; [|exact Hforall]. split; [reflexivity|]. exists f, p. auto.
Qed.

(** When every country has [flags.png] and the image converter answers,
    [generateFlagImgs] returns a table with one entry per country, in
    dataset order: the entry carries the common name of the country and
    the art of its [flags.png] URL with the first ".png" replaced by
    ".jpg". *)
Theorem generateFlagImgs_table (w : World) (render : string -> list string)
    (t : option string) (cs : list Country) (s : State) :
  (forall url, getImageStrings w url = Return (render url)) ->
  Forall hasPng cs ->
  exists table,
    fst (Countries.generateFlagImgs w cs t s) = Return table /\
    Forall2 (jpgEntry render) cs table /\
    map countryName table = map (fun c => common (name c)) cs.
Proof.
  intros Himg Hall.
  destruct (generateFlagImgsFrom_table w render (length cs) t cs Himg Hall [] O s)
    as (table & Ht & Hforall).
  exists table. split; [exact Ht|]. split; [exact Hforall|].
  clear Ht. induction Hforall as [|c e cs table [Hn _] _ IH]; simpl; [reflexivity|].
  inversion Hall; subst. now rewrite Hn, IH.
Qed.

Lemma generateFlagImgs_table_witness :
  exists table,
    fst (Countries.generateFlagImgs (world 0 (answers []) oneLine) [france; france] None
           (initial emptyCache)) = Return table /\
    map countryName table = ["France"; "France"].
Proof.
  assert (Hpng : hasPng france).
  { exists {| png := Some "https://flagcdn.com/w320/fr.png";
              svg := Some "https://flagcdn.com/fr.svg" |},
           "https://flagcdn.com/w320/fr.png". split; reflexivity. }
  destruct (generateFlagImgs_table (world 0 (answers []) oneLine) (fun url => [url])
              None [france; france] (initial emptyCache) (fun url => eq_refl)
              ltac:(repeat constructor; exact Hpng))
    as (table & Ht & _ & Hn).
  exists table. split; [exact Ht | exact Hn].
Defined.

Lemma generateFlagImgsFrom_progress (w : World) (total : nat) (t : option string)
    (cs : list Country) (data : list FlagAscii) (i : nat) (s : State) :
  exists evs m,
    trace (snd (Countries.generateFlagImgsFrom w total t cs data i s)) = trace s ++ evs /\
    (m <= length cs)%nat /\
    progressOf evs = reports total i m /\
    (forall table,
        fst (Countries.generateFlagImgsFrom w total t cs data i s) = Return table ->
        m = length cs /\ length table = (length data + length cs)%nat).
Proof.
  revert data i s. induction cs as [|c cs IH]; intros data i s; simpl.
  - exists [], O. rewrite app_nil_r.
    split; [reflexivity|]. split; [lia|]. split; [reflexivity|].
    intros table [= <-]. split; [reflexivity|lia].
  - run.
    destruct (property (flags c)) as [f|e]; simpl.
    2:{ exists [], O. rewrite app_nil_r.
        split; [reflexivity|]. split; [lia|]. split; [reflexivity|].
        intros table H. discriminate H. }
    destruct (property (png f)) as [p|e]; simpl.
    2:{ exists [], O. rewrite app_nil_r.
        split; [reflexivity|]. split; [lia|]. split; [reflexivity|].
        intros table H. discriminate H. }
    destruct (getImageStrings w _) as [img|e]; simpl.
    2:{ eexists [_], O.
        split; [reflexivity|]. split; [lia|]. split; [reflexivity|].
        intros table H. discriminate H. }
    match goal with
    | |- context [Countries.generateFlagImgsFrom w total t cs ?d ?j ?st] =>
        destruct (IH d j st) as (evs & m & Ht & Hm & Hp & Hret)
    end.
    eexists (_ :: _ :: evs), (S m). split.
    + rewrite Ht. simpl. rewrite <- !app_assoc. reflexivity.
    + split; [lia|]. split.
      * simpl. rewrite Hp. unfold reports. reflexivity.
      * intros table Htable. destruct (Hret table Htable) as [-> Hlen].
        split; [reflexivity|]. rewrite Hlen, length_app. simpl. lia.
Qed.

(** Progress is reported in step with the requests.  Whatever happens,
    the reports a run of [generateFlagImgs] adds are numbered 1, 2, ...
    without a gap, each with the size of the dataset as total; when the
    run returns there is one report, and one table entry, per country. *)
Theorem generateFlagImgs_progress (w : World) (t : option string) (cs : list Country)
    (s : State) :
  exists evs m,
    trace (snd (Countries.generateFlagImgs w cs t s)) = trace s ++ evs /\
    (m <= length cs)%nat /\
    progressOf evs = reports (length cs) 0 m /\
    (forall table,
        fst (Countries.generateFlagImgs w cs t s) = Return table ->
        m = length cs /\ length table = length cs).
Proof.
  destruct (generateFlagImgsFrom_progress w (length cs) t cs [] O s)
    as (evs & m & Ht & Hm & Hp & Hret).
  exists evs, m.
  split; [exact Ht|]. split; [exact Hm|]. split; [exact Hp|].
  intros table Htable. now apply Hret.
Qed.

Lemma alt_generateFlagImgsFrom_progress (w : World) (total : nat) (t : option string)
    (cs : list Country) (data : list FlagAscii) (i : nat) (s : State) :
  exists evs m,
    trace (snd (CountriesAlt.generateFlagImgsFrom w total t cs data i s)) = trace s ++ evs /\
    (m <= length cs)%nat /\
    progressOf evs = reports total i m /\
    (forall table,
        fst (CountriesAlt.generateFlagImgsFrom w total t cs data i s) = Return table ->
        length table = (length data + m)%nat /\
        m = length (List.filter hasFlagUrl cs)).
Proof.
  revert data i s. induction cs as [|c cs IH]; intros data i s; simpl.
  - exists [], O. rewrite app_nil_r.
    split; [reflexivity|]. split; [lia|]. split; [reflexivity|].
    intros table [= <-]. split; [lia|reflexivity].
  - unfold hasFlagUrl at 1, flagUrlOf.
    destruct (String.eqb _ "N/A"); simpl.
    + destruct (IH data i s) as (evs & m & Ht & Hm & Hp & Hret).
      exists evs, m.
      split; [exact Ht|]. split; [lia|]. split; [exact Hp|exact Hret].
    + run. destruct (getImageStrings w _) as [img|e]; simpl.
      2:{ eexists [_], O.
          split; [reflexivity|]. split; [lia|]. split; [reflexivity|].
          intros table H. discriminate H. }
      match goal with
      | |- context [CountriesAlt.generateFlagImgsFrom w total t cs ?d ?j ?st] =>
          destruct (IH d j st) as (evs & m & Ht & Hm & Hp & Hret)
      end.
      eexists (_ :: _ :: evs), (S m). split.
      * rewrite Ht. simpl. rewrite <- !app_assoc. reflexivity.
      * split; [lia|]. split.
        -- simpl. rewrite Hp. unfold reports. reflexivity.
        -- intros table Htable. destruct (Hret table Htable) as [Hlen Hm'].
           split; [rewrite Hlen, length_app; simpl; lia|]. now rewrite <- Hm'.
Qed.

(** In the sibling text a skipped country gets no report, while the total
    stays the size of the dataset: the reports are numbered 1, 2, ...
    without a gap, and when the run returns, the last report carries the
    number of countries that have a flag URL, which is also the number of
    table entries, so the count falls short of the total as soon as one
    country is skipped. *)
Theorem alt_generateFlagImgs_progress (w : World) (t : option string)
    (cs : list Country) (s : State) :
  exists evs m,
    trace (snd (CountriesAlt.generateFlagImgs w cs t s)) = trace s ++ evs /\
    (m <= length cs)%nat /\
    progressOf evs = reports (length cs) 0 m /\
    (forall table,
        fst (CountriesAlt.generateFlagImgs w cs t s) = Return table ->
        length table = m /\
        m = length (List.filter hasFlagUrl cs)).
Proof.
  destruct (alt_generateFlagImgsFrom_progress w (length cs) t cs [] O s)
    as (evs & m & Ht & Hm & Hp & Hret).
  exists evs, m.
  split; [exact Ht|]. split; [exact Hm|]. split; [exact Hp|].
  intros table Htable. now apply Hret.
Qed.

Lemma generateFlagImgsFrom_errors (w : World) (total : nat) (t : option string)
    (cs : list Country) (e : Error) :
  forall (data : list FlagAscii) (i : nat) (s : State),
  fst (Countries.generateFlagImgsFrom w total t cs data i s) = Throw e ->
  (e = TypeError /\ exists c, In c cs /\ ~ hasPng c) \/
  (exists url, getImageStrings w url = Throw e).
Proof.
  induction cs as [|c cs IH]; intros data i s; simpl; [discriminate|].
  run. destruct (flags c) as [f|] eqn:Hf; simpl.
  2:{ intros [= <-]. left. split; [reflexivity|]. exists c. split; [now left|].
      intros (f & p & Hf' & _). congruence. }
  destruct (png f) as [p|] eqn:Hp; simpl.
  2:{ intros [= <-]. left. split; [reflexivity|]. exists c. split; [now left|].
      intros (f' & p & Hf' & Hp'). congruence. }
  destruct (getImageStrings w _) as [img|e'] eqn:Himg; simpl.
  2:{ intros [= <-]. right. eauto. }
  intros H. apply IH in H as [(-> & c' & Hin & Hc')|H]; [left|right; exact H].
  split; [reflexivity|]. exists c'. split; [now right|exact Hc'].
Qed.

(** [generateFlagImgs] fails in two ways only: with a [TypeError], and
    then some country of the dataset has no [flags.png]; or with an error
    the image converter gave. *)
Theorem generateFlagImgs_errors (w : World) (t : option string) (cs : list Country)
    (s : State) (e : Error) :
  fst (Countries.generateFlagImgs w cs t s) = Throw e ->
  (e = TypeError /\ exists c, In c cs /\ ~ hasPng c) \/
  (exists url, getImageStrings w url = Throw e).
Proof. apply generateFlagImgsFrom_errors. Qed.

Lemma generateFlagImgs_errors_witness :
  (ImageError = TypeError /\ exists c, In c [france] /\ ~ hasPng c) \/
  (exists url, getImageStrings (world 0 (answers []) noImages) url = Throw ImageError).
Proof.
  apply (generateFlagImgs_errors (world 0 (answers []) noImages) None [france]
           (initial emptyCache) ImageError eq_refl).
Defined.

Lemma alt_generateFlagImgsFrom_errors (w : World) (total : nat) (t : option string)
    (cs : list Country) (e : Error) :
  forall (data : list FlagAscii) (i : nat) (s : State),
  fst (CountriesAlt.generateFlagImgsFrom w total t cs data i s) = Throw e ->
  exists c url, In c cs /\ flagUrlOf c = Some url /\ getImageStrings w url = Throw e.
Proof.
  induction cs as [|c cs IH]; intros data i s; simpl; [discriminate|].
  destruct (String.eqb _ "N/A") eqn:Hna.
  - intros H. apply IH in H as (c' & url & Hin & Hu & Hg). exists c', url. auto.
  - run. destruct (getImageStrings w _) as [img|e'] eqn:Himg; simpl.
    + intros H. apply IH in H as (c' & url & Hin & Hu & Hg). exists c', url. auto.
    + intros [= <-]. eexists c, _. split; [now left|]. split; [|exact Himg].
      unfold flagUrlOf. now rewrite Hna.
Qed.

(** The sibling text never fails on its own account: when its
    [generateFlagImgs] throws, the error is the one the image converter
    gave for the flag URL of a country of the dataset. *)
Theorem alt_generateFlagImgs_errors (w : World) (t : option string) (cs : list Country)
    (s : State) (e : Error) :
  fst (CountriesAlt.generateFlagImgs w cs t s) = Throw e ->
  exists c url, In c cs /\ flagUrlOf c = Some url /\ getImageStrings w url = Throw e.
Proof. apply alt_generateFlagImgsFrom_errors. Qed.

Lemma alt_generateFlagImgs_errors_witness :
  exists c url, In c [bare "Atlantis"; vectorOnly] /\ flagUrlOf c = Some url /\
                getImageStrings (world 0 (answers []) noImages) url = Throw ImageError.
Proof.
  apply (alt_generateFlagImgs_errors (world 0 (answers []) noImages) None
           [bare "Atlantis"; vectorOnly] (initial emptyCache) ImageError eq_refl).
Defined.

Lemma alt_generateFlagImgs_skips_witness :
  fst (CountriesAlt.generateFlagImgs (world 0 (answers []) oneLine)
         [bare "Atlantis"; vectorOnly] None (initial emptyCache))
  = Return [{| countryName := "Nepal"; flagString := ["https://flagcdn.com/np.svg"] |}].
Proof.
  apply (alt_generateFlagImgs_skips (world 0 (answers []) oneLine) (fun url => [url])
           None [bare "Atlantis"; vectorOnly] (initial emptyCache) (fun url => eq_refl)).
Defined.

(* ------------------------------------------------------------------ *)
(** ** More on the sibling text's synchronisation *)

Lemma alt_sync_non_success_witness :
  let s := initial (cached [france] "900") in
  CountriesAlt.sync (world 1000 (Return serverError) noImages) true true s
  = (Throw (ErrorObject "API Error: []"), logged (fetchEvents true) s).
Proof.
  intros s.
  apply (alt_sync_non_success (world 1000 (Return serverError) noImages) s true true
           serverError eq_refl eq_refl eq_refl).
Defined.

Lemma alt_sync_force_refetches_witness :
  countriesJson
    (cache (snd (CountriesAlt.sync (world 5 (answers [france]) noImages) true false
                   (initial (cached [] "5")))))
  = Some [france].
Proof.
  apply (alt_sync_force_refetches (world 5 (answers [france]) noImages)
           (initial (cached [] "5")) false
           {| ok := true; text := "[...]"; json := Return [france] |} [france]
           eq_refl eq_refl eq_refl).
Defined.

Lemma alt_persist_before_flag_art_witness :
  let w := world 9 (answers [france]) noImages in
  cache (snd (CountriesAlt.generateFlagImgs w [france] (Some flagArtTitle)
                (persisted w false [france] (initial emptyCache))))
  = {| countriesJson := Some [france]; flagsJson := None; lastSyncedTxt := Some "9" |}.
Proof.
  intros w.
  apply (alt_persist_before_flag_art w (initial emptyCache) false
           {| ok := true; text := "[...]"; json := Return [france] |} [france]
           eq_refl eq_refl eq_refl eq_refl).
Defined.

(* ------------------------------------------------------------------ *)
(** ** More on printing *)

Lemma alt_print_marks_absent_fields_witness :
  exists record before,
    CountriesAlt.print offline "atlantis" (loaded [bare "Atlantis"])
    = (Return tt, logged (before ++ [LoggerLogCountry record]) (loaded [bare "Atlantis"])) /\
    pr_population record = Some "N/A".
Proof.
  destruct (alt_print_marks_absent_fields offline (loaded [bare "Atlantis"]) "atlantis"
              (bare "Atlantis") eq_refl)
    as (record & before & Hrun & _ & _ & Hpop & _).
  exists record, before. split; [exact Hrun | exact (Hpop eq_refl)].
Defined.

(** [print] of [src/countries.ts] returns exactly when the country is
    found and has its coordinates, its capital list, its population and
    its time zones; region, subregion, domains and flag may be absent. *)
Theorem print_returns_iff (w : World) (s : State) (q : string) :
  fst (Countries.print w q s) = Return tt <->
  exists c,
    fst (Countries.find q s) = Return c /\
    latlng c <> None /\ capital c <> None /\
    population c <> None /\ timezones c <> None.
Proof.
  unfold Countries.print. unfold bind at 1.
  destruct (Countries.find q s) as [[c|e] s0] eqn:Hfind; cbn [fst].
  2:{ split; [discriminate|]. intros (c & H & _). discriminate H. }
  run.
  destruct (List.find _ (this_flags s0)) as [f|]; simpl;
    destruct (latlng c) as [ll|] eqn:Hll; simpl;
    destruct (capital c) as [cap|] eqn:Hcap; simpl;
    destruct (population c) as [pop|] eqn:Hpop; simpl;
    destruct (timezones c) as [tz|] eqn:Htz; simpl;
    (split;
     [ intros H; try discriminate H; exists c;
       repeat (split; [first [reflexivity | congruence | discriminate]|]);
       first [congruence | discriminate]
     | intros (c' & [= <-] & H1 & H2 & H3 & H4);
       first [reflexivity | contradiction] ]).
Qed.

(** Neither text of [print] changes the object or the cache, and neither
    fetches, writes to the cache or asks for an image: the effects it adds
    are calls of the logger and nothing else, also when it throws. *)
Theorem print_only_logs (w : World) (s : State) (q : string) :
  onlyLoggerCalls s (snd (Countries.print w q s)) /\
  onlyLoggerCalls s (snd (CountriesAlt.print w q s)).
Proof.
  assert (Hrefl : onlyLoggerCalls s s).
  { repeat split. exists []. split; [now rewrite app_nil_r|reflexivity]. }
  split.
  - unfold Countries.print. unfold bind at 1. rewrite find_unfold.
    destruct (match List.find (nameIs (toLowerCase q)) (this_list s) with
              | Some c => Return c
              | None => _
              end) as [c|e]; [|exact Hrefl].
    run.
    destruct (List.find _ (this_flags s)) as [f|]; simpl;
      destruct (latlng c); simpl; destruct (capital c); simpl;
      destruct (population c); simpl; destruct (timezones c); simpl;
      repeat (split; [reflexivity|]);
      first [ exists []; split; [now rewrite app_nil_r|reflexivity]
            | eexists; split; [rewrite <- ?app_assoc; simpl; reflexivity|reflexivity] ].
  - unfold CountriesAlt.print, CountriesAlt.find. unfold bind at 1. rewrite find_unfold.
    destruct (match List.find (nameIs (toLowerCase q)) (this_list s) with
              | Some c => Return c
              | None => _
              end) as [c|e]; [|exact Hrefl].
    run.
    destruct (List.find _ (this_flags s)) as [f|]; simpl;
      repeat (split; [reflexivity|]);
      eexists; (split; [rewrite <- ?app_assoc; simpl; reflexivity|reflexivity]).
Qed.

Example print_logs_sample :
  trace (snd (CountriesAlt.print offline "atlantis" (loaded [bare "Atlantis"])))
  = [LoggerLog (Some (newline +:+ repeatString "-" 40));
     LoggerError "Flag not found for Atlantis";
     LoggerLog (Some "Flag: Not Available");
     LoggerLog (Some (repeatString "-" 40));
     LoggerLogCountry
       {| pr_country := Some "Atlantis"; pr_latlng := Some "N/A";
          pr_capital := Some "N/A"; pr_flag := Some "Flag: Not Available";
          pr_population := Some "N/A"; pr_region := Some "N/A";
          pr_subregion := Some "N/A"; pr_capitalLatLng := Some "N/A";
          pr_timezones := Some "N/A"; pr_tld := Some "N/A";
          pr_currencies := Some ""; pr_languages := Some "" |}].
Proof. reflexivity. Qed.
